(** * A shallow embedding of the console contact book (main.py)

    The development follows the layout of the program: the validated
    value types ([Name], [Phone], [Birthday]), the contact [Record], the
    [AddressBook], the command handlers with their error-translating
    decorator, the command parser and the read-dispatch loop.

    Conventions.
    - A Python [str] is a Rocq [string].  The embedding covers strings
      whose characters are ASCII: a character above 127 is never a
      letter, a digit or white space here.
    - A Python [int] is a [Z]; lengths and positions are [nat].
    - An exception is a value of [exn]; code that may raise returns a
      [result].
    - The source is written for Python 3.10 or later (it evaluates
      annotations such as [Phone | None] when a method is defined), so
      generators follow PEP 479. *)

From Stdlib Require Import ZArith List String Ascii Bool Arith Lia.
From Stdlib Require Import DecimalString.
Import ListNotations.

Local Open Scope string_scope.
Local Open Scope list_scope.
Local Open Scope nat_scope.

(** ** Exceptions and results *)

Inductive exn : Type :=
| IndexError
| KeyError
| ValueError (msg : string)
| TypeError (msg : string)
| AttributeError (msg : string)
| RuntimeError (msg : string)
| StopIteration
| EOFError.

Inductive result (A : Type) : Type :=
| Ok (a : A)
| Raise (e : exn).

Arguments Ok {A} a.
Arguments Raise {A} e.

Definition bind {A B : Type} (r : result A) (f : A -> result B) : result B :=
  match r with
  | Ok a => f a
  | Raise e => Raise e
  end.

Notation "x <- r ;; k" := (bind r (fun x => k))
  (at level 61, r at next level, right associativity).

(** [args[i]] on a tuple of positional arguments. *)
Definition index {A : Type} (args : list A) (i : nat) : result A :=
  match nth_error args i with
  | Some a => Ok a
  | None => Raise IndexError
  end.

(** ** Characters and the string methods the program calls *)

Definition code (c : ascii) : nat := nat_of_ascii c.

Definition in_range (lo hi c : ascii) : bool :=
  (code lo <=? code c)%nat && (code c <=? code hi)%nat.

Definition is_digit (c : ascii) : bool := in_range "0" "9" c.
Definition is_upper (c : ascii) : bool := in_range "A" "Z" c.
Definition is_lower (c : ascii) : bool := in_range "a" "z" c.
Definition is_alpha (c : ascii) : bool := is_upper c || is_lower c.

Definition newline : ascii := "010".

(** [str.isspace] on an ASCII character: tab .. carriage return, the
    four separators 28 .. 31, and the blank. *)
Definition is_space (c : ascii) : bool :=
  in_range "009" "013" c || in_range "028" "031" c || (c =? " ")%char.

Definition lower_char (c : ascii) : ascii :=
  if is_upper c then ascii_of_nat (code c + 32) else c.

Definition upper_char (c : ascii) : ascii :=
  if is_lower c then ascii_of_nat (code c - 32) else c.

(** [s.lower()] *)
Fixpoint lower (s : string) : string :=
  match s with
  | EmptyString => EmptyString
  | String c s' => String (lower_char c) (lower s')
  end.

(** [s.title()]: a cased character is upper-cased after an uncased one
    and lower-cased after a cased one. *)
Fixpoint title_from (prev_cased : bool) (s : string) : string :=
  match s with
  | EmptyString => EmptyString
  | String c s' =>
      String (if prev_cased then lower_char c else upper_char c)
             (title_from (is_alpha c) s')
  end.

Definition title (s : string) : string := title_from false s.

(** [s.startswith(p)] *)
Fixpoint startswith (s p : string) : bool :=
  match p, s with
  | EmptyString, _ => true
  | String _ _, EmptyString => false
  | String a p', String b s' => (a =? b)%char && startswith s' p'
  end.

(** [s[n:]] *)
Fixpoint drop (n : nat) (s : string) : string :=
  match n, s with
  | O, _ => s
  | S _, EmptyString => EmptyString
  | S n', String _ s' => drop n' s'
  end.

(** [s[:n]] *)
Fixpoint take (n : nat) (s : string) : string :=
  match n, s with
  | O, _ => EmptyString
  | S _, EmptyString => EmptyString
  | S n', String c s' => String c (take n' s')
  end.

(** [s.split()]: the maximal runs of characters that are not white
    space.  [cur] is the run being read, in reverse. *)
Fixpoint rev_string (acc s : string) : string :=
  match s with
  | EmptyString => acc
  | String c s' => rev_string (String c acc) s'
  end.

Definition flush (cur : string) (out : list string) : list string :=
  match cur with
  | EmptyString => out
  | _ => rev_string EmptyString cur :: out
  end.

Fixpoint split_from (cur : string) (s : string) : list string :=
  match s with
  | EmptyString => flush cur []
  | String c s' =>
      if is_space c then flush cur (split_from EmptyString s')
      else split_from (String c cur) s'
  end.

Definition split (s : string) : list string := split_from EmptyString s.

(** [s.strip()] *)
Fixpoint lstrip (s : string) : string :=
  match s with
  | String c s' => if is_space c then lstrip s' else s
  | EmptyString => EmptyString
  end.

Definition strip (s : string) : string :=
  rev_string EmptyString (lstrip (rev_string EmptyString (lstrip s))).

(** [sep.join(parts)] *)
Fixpoint join (sep : string) (parts : list string) : string :=
  match parts with
  | [] => EmptyString
  | [p] => p
  | p :: rest => p ++ sep ++ join sep rest
  end.

(** [str(n)] for an [int]. *)
Definition str_of_int (z : Z) : string := NilZero.string_of_int (Z.to_int z).

(** [int(s)] for a string of decimal digits with optional leading
    blanks, the only shape the date parser passes to it. *)
Fixpoint int_digits (acc : Z) (s : string) : Z :=
  match s with
  | EmptyString => acc
  | String c s' => int_digits (10 * acc + (Z.of_nat (code c) - 48)) s'
  end.

Definition int_of_str (s : string) : Z := int_digits 0 (lstrip s).

(** ** Regular expressions, as [re.match] runs them

    A backtracking matcher in continuation-passing style: alternatives
    are tried left to right, repetition is greedy, and the first way to
    reach the end of the pattern is the match.  [pos] is the position of
    the rest [s] in the subject, [g] the groups matched so far. *)

Inductive regex : Type :=
| Eps                                   (* the empty pattern *)
| Bol                                   (* ^ *)
| Eol                                   (* $ *)
| Lit (c : ascii)                       (* an escaped or ordinary character *)
| Class (ranges : list (ascii * ascii)) (* [a-zA-Z] *)
| AnyDigit                              (* \d *)
| Cat (r1 r2 : regex)
| Or (r1 r2 : regex)                    (* r1|r2 *)
| Repeat (r : regex) (lo hi : nat)      (* r{lo,hi} *)
| Group (name : string) (r : regex).    (* (?P<name>r) *)

Definition groups : Type := list (string * string).
Definition matched : Type := (nat * groups)%type.
Definition cont : Type := nat -> string -> groups -> option matched.

Definition in_class (ranges : list (ascii * ascii)) (c : ascii) : bool :=
  existsb (fun r => in_range (fst r) (snd r) c) ranges.

Definition one_char (p : ascii -> bool) (pos : nat) (s : string) (g : groups)
    (k : cont) : option matched :=
  match s with
  | String c s' => if p c then k (S pos) s' g else None
  | EmptyString => None
  end.

Definition or_else (a b : option matched) : option matched :=
  match a with
  | Some m => Some m
  | None => b
  end.

Fixpoint repeat_run (run_r : nat -> string -> groups -> cont -> option matched)
    (lo hi : nat) (pos : nat) (s : string) (g : groups) (k : cont)
    : option matched :=
  match hi with
  | O => match lo with O => k pos s g | S _ => None end
  | S hi' =>
      or_else
        (run_r pos s g (fun pos' s' g' => repeat_run run_r (pred lo) hi' pos' s' g' k))
        (match lo with O => k pos s g | S _ => None end)
  end.

Fixpoint run (r : regex) (pos : nat) (s : string) (g : groups) (k : cont)
    : option matched :=
  match r with
  | Eps => k pos s g
  | Bol => if pos =? 0 then k pos s g else None
  | Eol =>
      (* the end of the string, or just before a newline that ends it *)
      match s with
      | EmptyString => k pos s g
      | String c EmptyString => if (c =? newline)%char then k pos s g else None
      | _ => None
      end
  | Lit c => one_char (fun c' => (c' =? c)%char) pos s g k
  | Class ranges => one_char (in_class ranges) pos s g k
  | AnyDigit => one_char is_digit pos s g k
  | Cat r1 r2 => run r1 pos s g (fun pos' s' g' => run r2 pos' s' g' k)
  | Or r1 r2 => or_else (run r1 pos s g k) (run r2 pos s g k)
  | Repeat r' lo hi => repeat_run (run r') lo hi pos s g k
  | Group name r' =>
      run r' pos s g
          (fun pos' s' g' => k pos' s' ((name, take (pos' - pos) s) :: g'))
  end.

(** [re.match(pattern, s)]: [Some (end, groups)] for a match object. *)
Definition re_match (pattern : regex) (s : string) : option matched :=
  run pattern 0 s [] (fun pos _ g => Some (pos, g)).

Definition group (name : string) (g : groups) : string :=
  match find (fun e => String.eqb (fst e) name) g with
  | Some e => snd e
  | None => EmptyString
  end.

(** ** The validated value types

    The setters are given a [str], so their [isinstance] tests pass and
    the [TypeError] they guard is never raised. *)

(** r'^[a-zA-Z]{1,20}$' *)
Definition name_pattern : regex :=
  Cat Bol (Cat (Repeat (Class [("a", "z"); ("A", "Z")]%char) 1 20) Eol).

(** r'^[0-9]{10}$' *)
Definition phone_pattern : regex :=
  Cat Bol (Cat (Repeat (Class [("0", "9")]%char) 10 10) Eol).

Module Name.
Record t : Type := Build { value : string }.

(** [Name(name)]: the setter of [Name.value]. *)
Definition new (name : string) : result t :=
  match re_match name_pattern name with
  | None =>
      Raise (ValueError "Name must contain only letters and be 1-20 symbols long")
  | Some _ => Ok (Build name)
  end.
End Name.

Module Phone.
Record t : Type := Build { value : string }.

(** [Phone(phone)]: the setter of [Phone.value]. *)
Definition new (phone : string) : result t :=
  match re_match phone_pattern phone with
  | None =>
      Raise (ValueError "Phone must contain only digits and be 10 symbols long")
  | Some _ => Ok (Build phone)
  end.
End Phone.

(** ** Calendar dates: [datetime.date] *)

Module Date.
Local Open Scope Z_scope.

Record t : Type := Build { year : Z; month : Z; day : Z }.

Definition MINYEAR : Z := 1.
Definition MAXYEAR : Z := 9999.

Definition _DAYS_IN_MONTH : list Z :=
  [-1; 31; 28; 31; 30; 31; 30; 31; 31; 30; 31; 30; 31].

Definition _DAYS_BEFORE_MONTH : list Z :=
  [-1; 0; 31; 59; 90; 120; 151; 181; 212; 243; 273; 304; 334].

Definition _is_leap (year : Z) : bool :=
  (year mod 4 =? 0) && (negb (year mod 100 =? 0) || (year mod 400 =? 0)).

Definition _days_before_year (year : Z) : Z :=
  let y := year - 1 in
  y * 365 + y / 4 - y / 100 + y / 400.

Definition _days_in_month (year month : Z) : Z :=
  if (month =? 2) && _is_leap year then 29
  else nth (Z.to_nat month) _DAYS_IN_MONTH 0.

Definition _days_before_month (year month : Z) : Z :=
  nth (Z.to_nat month) _DAYS_BEFORE_MONTH 0
  + (if (month >? 2) && _is_leap year then 1 else 0).

Definition _ymd2ord (year month day : Z) : Z :=
  _days_before_year year + _days_before_month year month + day.

(** [date(year, month, day)], with [_check_date_fields]. *)
Definition new (year month day : Z) : result t :=
  if negb ((MINYEAR <=? year) && (year <=? MAXYEAR)) then
    Raise (ValueError "year must be in 1..9999")
  else if negb ((1 <=? month) && (month <=? 12)) then
    Raise (ValueError "month must be in 1..12")
  else if negb ((1 <=? day) && (day <=? _days_in_month year month)) then
    Raise (ValueError "day is out of range for month")
  else Ok (Build year month day).

Definition toordinal (d : t) : Z := _ymd2ord (year d) (month d) (day d).

(** [a < b]: the comparison of the (year, month, day) triples. *)
Definition ltb (a b : t) : bool :=
  (year a <? year b)
  || ((year a =? year b)
      && ((month a <? month b)
          || ((month a =? month b) && (day a <? day b)))).

(** [(a - b).days] *)
Definition sub_days (a b : t) : Z := toordinal a - toordinal b.

(** [str(d)], the ISO format "%04d-%02d-%02d". *)
Definition zfill (width : nat) (s : string) : string :=
  Nat.iter (width - String.length s) (String "0"%char) s.

Definition isoformat (d : t) : string :=
  (zfill 4 (str_of_int (year d)) ++ "-" ++ zfill 2 (str_of_int (month d))
   ++ "-" ++ zfill 2 (str_of_int (day d)))%string.
End Date.

(** ** Parsing a date: [datetime.strptime]

    The library turns the format into a regular expression, one named
    group per directive, matches it at the start of the data, requires
    the match to reach the end, converts the groups with [int] and
    builds the date.  Only the directives this program uses are
    modelled; its format has no white space. *)

Module Strptime.
(** The entries of [TimeRE] for [%d], [%m] and [%Y]. *)
Definition directive (c : ascii) : option regex :=
  if (c =? "d")%char then
    (* (?P<d>3[0-1]|[1-2]\d|0[1-9]|[1-9]| [1-9]) *)
    Some (Group "d"
            (Or (Cat (Lit "3") (Class [("0", "1")]%char))
            (Or (Cat (Class [("1", "2")]%char) AnyDigit)
            (Or (Cat (Lit "0") (Class [("1", "9")]%char))
            (Or (Class [("1", "9")]%char)
                (Cat (Lit " ") (Class [("1", "9")]%char)))))))
  else if (c =? "m")%char then
    (* (?P<m>1[0-2]|0[1-9]|[1-9]) *)
    Some (Group "m"
            (Or (Cat (Lit "1") (Class [("0", "2")]%char))
            (Or (Cat (Lit "0") (Class [("1", "9")]%char))
                (Class [("1", "9")]%char))))
  else if (c =? "Y")%char then
    (* (?P<Y>\d\d\d\d) *)
    Some (Group "Y" (Cat AnyDigit (Cat AnyDigit (Cat AnyDigit AnyDigit))))
  else None.

(** [TimeRE.pattern]: a directive becomes its group, any other
    character stands for itself. *)
Fixpoint pattern (format : string) : option regex :=
  match format with
  | EmptyString => Some Eps
  | String c rest =>
      if (c =? "%")%char then
        match rest with
        | EmptyString => None
        | String d rest' =>
            match directive d, pattern rest' with
            | Some r, Some r' => Some (Cat r r')
            | _, _ => None
            end
        end
      else
        match pattern rest with
        | Some r' => Some (Cat (Lit c) r')
        | None => None
        end
  end.

(** [datetime.strptime(data_string, format).date()] *)
Definition strptime_date (data_string format : string) : result Date.t :=
  match pattern format with
  | None => Raise (ValueError "bad directive in format")
  | Some format_regex =>
      match re_match format_regex data_string with
      | None => Raise (ValueError "time data does not match format")
      | Some (found_end, found_dict) =>
          if negb (String.length data_string =? found_end) then
            Raise (ValueError "unconverted data remains")
          else
            let year := int_of_str (group "Y" found_dict) in
            let month := int_of_str (group "m" found_dict) in
            let day := int_of_str (group "d" found_dict) in
            Date.new year month day
      end
  end.
End Strptime.

Module Birthday.
Record t : Type := Build { value : Date.t }.

(** [Birthday(value)]: the setter of [Birthday.value].  The clause
    [except ValueError or TypeError] catches [ValueError] only, since
    [ValueError or TypeError] evaluates to [ValueError]. *)
Definition new (value : string) : result t :=
  match Strptime.strptime_date value "%d.%m.%Y" with
  | Ok d => Ok (Build d)
  | Raise (ValueError _) =>
      Raise (ValueError "Birthday must contain date in format DD.MM.YYYY!")
  | Raise e => Raise e
  end.

(** [repr(b)] *)
Definition repr (b : t) : string := Date.isoformat (value b).
End Birthday.

(** ** The contact record: [class Record] *)

Module ContactRecord.
Record t : Type := Build {
  name : Name.t;
  phones : list Phone.t;
  birthday : option Birthday.t
}.

(** [Record(name, phones)]: the birthday defaults to [None]. *)
Definition new (name : Name.t) (phones : list Phone.t) : t :=
  Build name phones None.

(** [value in [p.value for p in phones]] *)
Definition has_value (value : string) (phones : list Phone.t) : bool :=
  existsb (fun p => String.eqb value (Phone.value p)) phones.

(** [add_phone]: the record afterwards and the value returned. *)
Definition add_phone (r : t) (phone : Phone.t) : t * option Phone.t :=
  if negb (has_value (Phone.value phone) (phones r)) then
    (Build (name r) (phones r ++ [phone]) (birthday r), Some phone)
  else (r, None).

(** The loop of [del_phone]: the first phone with the value is taken
    out of the list and returned. *)
Fixpoint remove_first (value : string) (phones : list Phone.t)
    : option (Phone.t * list Phone.t) :=
  match phones with
  | [] => None
  | p :: rest =>
      if String.eqb (Phone.value p) value then Some (p, rest)
      else match remove_first value rest with
           | Some (q, rest') => Some (q, p :: rest')
           | None => None
           end
  end.

Definition del_phone (r : t) (phone : Phone.t) : t * option Phone.t :=
  match remove_first (Phone.value phone) (phones r) with
  | Some (p, rest) => (Build (name r) rest (birthday r), Some p)
  | None => (r, None)
  end.

Definition change_phone (r : t) (phone new_phone : Phone.t)
    : t * option (Phone.t * Phone.t) :=
  match del_phone r phone with
  | (r', Some _) => (fst (add_phone r' new_phone), Some (phone, new_phone))
  | (r', None) => (r', None)
  end.

(** [add_birthday]: [None] is falsy, a [Birthday] object is truthy. *)
Definition add_birthday (r : t) (b : option Birthday.t) : t :=
  match b with
  | Some _ => Build (name r) (phones r) b
  | None => r
  end.

(** [days_to_birthday], with [date.today()] passed as [date_today].
    Reading [self.birthday.value] on a record without a birthday is an
    attribute access on [None]. *)
Definition days_to_birthday (date_today : Date.t) (r : t) : result Z :=
  match birthday r with
  | None =>
      Raise (AttributeError "'NoneType' object has no attribute 'value'")
  | Some b =>
      let bv := Birthday.value b in
      birthday_date <-
        Date.new (Date.year date_today) (Date.month bv) (Date.day bv) ;;
      birthday_date <-
        (if Date.ltb birthday_date date_today then
           Date.new (Date.year date_today + 1)%Z (Date.month bv) (Date.day bv)
         else Ok birthday_date) ;;
      Ok (Date.sub_days birthday_date date_today)
  end.

Definition repr (r : t) : string :=
  match birthday r with
  | Some b =>
      (join ", " (map Phone.value (phones r)) ++ " Birthday: "
       ++ Birthday.repr b)%string
  | None => join ", " (map Phone.value (phones r))
  end.
End ContactRecord.

(** ** The address book: [class AddressBook(UserDict)]

    [data] is a [dict]: an association list in insertion order whose
    keys are pairwise different ([wf]). *)

Module AddressBook.
Definition t : Type := list (string * ContactRecord.t).

Definition keys (data : t) : list string := map fst data.

Definition wf (data : t) : Prop := NoDup (keys data).

(** [data.get(key)] *)
Fixpoint get (data : t) (key : string) : option ContactRecord.t :=
  match data with
  | [] => None
  | (k, v) :: rest => if String.eqb k key then Some v else get rest key
  end.

(** [data[key] = value]: a present key keeps its place, a new one goes
    to the end. *)
Fixpoint set_item (data : t) (key : string) (value : ContactRecord.t) : t :=
  match data with
  | [] => [(key, value)]
  | (k, v) :: rest =>
      if String.eqb k key then (k, value) :: rest
      else (k, v) :: set_item rest key value
  end.

(** [data.pop(key)] for a key that is present. *)
Fixpoint pop (data : t) (key : string) : t :=
  match data with
  | [] => []
  | (k, v) :: rest =>
      if String.eqb k key then rest else (k, v) :: pop rest key
  end.

(** [data[key]] *)
Definition getitem (data : t) (key : string) : result ContactRecord.t :=
  match get data key with
  | Some v => Ok v
  | None => Raise KeyError
  end.

(** [add_record]: a record object is truthy, so the test is whether
    the name is a key. *)
Definition add_record (data : t) (record : ContactRecord.t)
    : t * option ContactRecord.t :=
  let key := Name.value (ContactRecord.name record) in
  match get data key with
  | None => (set_item data key record, Some record)
  | Some _ => (data, None)
  end.

Definition del_record (data : t) (key : string)
    : t * option ContactRecord.t :=
  match get data key with
  | Some rec => (pop data key, Some rec)
  | None => (data, None)
  end.

(** *** The generator [iterator]

    A generator run to its end: the values it yields and the way its
    body ends. *)
Inductive ending : Type :=
| Returned
| Raised (e : exn).

(** The [for] loop of the body over the keys [ks]: [count] records
    have been yielded so far.  A lookup that fails ends the body. *)
Fixpoint iterator_loop (data : t) (ks : list string) (n count : Z)
    : list ContactRecord.t * option exn :=
  match ks with
  | [] => ([], None)
  | i :: ks' =>
      if (count <? n)%Z then
        match getitem data i with
        | Ok rec =>
            let (ys, e) := iterator_loop data ks' n (count + 1)%Z in
            (rec :: ys, e)
        | Raise e => ([], Some e)
        end
      else iterator_loop data ks' n count
  end.

(** The body: the loop has no [break], so its [else] clause runs
    whenever the loop ends, and raises [StopIteration]. *)
Definition iterator_body (data : t) (n : Z)
    : list ContactRecord.t * ending :=
  match iterator_loop data (keys data) n 0%Z with
  | (ys, Some e) => (ys, Raised e)
  | (ys, None) => (ys, Raised StopIteration)
  end.

(** PEP 479: a [StopIteration] that leaves the body of a generator is
    replaced by a [RuntimeError]. *)
Definition generator (run : list ContactRecord.t * ending)
    : list ContactRecord.t * ending :=
  match run with
  | (ys, Raised StopIteration) =>
      (ys, Raised (RuntimeError "generator raised StopIteration"))
  | other => other
  end.

Definition iterator (data : t) (n : Z) : list ContactRecord.t * ending :=
  generator (iterator_body data n).
End AddressBook.

(** ** The command handlers

    The module-level [notebook] is threaded through: a handler takes the
    book and the positional arguments and gives the book afterwards and
    the value it returns or the exception it raises.  [date_today] is
    what [date.today()] returns during the run. *)

Local Open Scope string_scope.

(** What a handler returns: a string, or (for [print_phone]) a record. *)
Inductive value : Type :=
| Str (s : string)
| Rec (r : ContactRecord.t).

Definition handler : Type :=
  AddressBook.t -> list string -> AddressBook.t * result value.

Definition usage_message : string :=
  "Please enter the contact like this:" ++ String newline "Name: number".
Definition missing_message : string := "This contact doesn't exist.".
Definition phone_message : string :=
  "Phone must contain only digits and be 10 symbols long".

(** The decorator [input_error]: three kinds of exception become a
    message, any other exception passes through. *)
Definition input_error (func : handler) : handler :=
  fun notebook args =>
    let (notebook', r) := func notebook args in
    (notebook',
     match r with
     | Raise IndexError => Ok (Str usage_message)
     | Raise KeyError => Ok (Str missing_message)
     | Raise (ValueError _) => Ok (Str phone_message)
     | other => other
     end).

Definition greeting : handler :=
  fun notebook _ => (notebook, Ok (Str "How can I help you?")).

Definition to_exit : handler :=
  fun notebook _ => (notebook, Ok (Str "Good bye")).

Definition added_message (r : ContactRecord.t) : string :=
  "Contact " ++ Name.value (ContactRecord.name r) ++ " has added successfully.".

Definition not_in_notebook (key : string) : string :=
  "Contact, with name " ++ key ++ " not in notebook.".

(** [add_contact] before decoration.  [rec] is one object: when
    [add_record] has stored it, the birthday set on it afterwards is
    seen through the book too; when the name was taken, [rec] is not in
    the book and the book stays as it is. *)
Definition add_contact_body : handler :=
  fun notebook args =>
    match
      (a0 <- index args 0 ;; name <- Name.new a0 ;;
       a1 <- index args 1 ;; phone <- Phone.new a1 ;;
       Ok (ContactRecord.new name [phone]))
    with
    | Raise e => (notebook, Raise e)
    | Ok rec =>
        let (notebook1, stored) := AddressBook.add_record notebook rec in
        match (a2 <- index args 2 ;; Birthday.new a2) with
        | Raise IndexError => (notebook1, Ok (Str (added_message rec)))
        | Raise e => (notebook1, Raise e)
        | Ok b =>
            let rec' := ContactRecord.add_birthday rec (Some b) in
            let key := Name.value (ContactRecord.name rec) in
            (match stored with
             | Some _ => AddressBook.set_item notebook1 key rec'
             | None => notebook1
             end,
             Ok (Str (added_message rec')))
        end
    end.

Definition add_contact : handler := input_error add_contact_body.

Definition change_number_body : handler :=
  fun notebook args =>
    match index args 0 with
    | Raise e => (notebook, Raise e)
    | Ok a0 =>
        match AddressBook.get notebook a0 with
        | Some rec =>
            match
              (a1 <- index args 1 ;; phone <- Phone.new a1 ;;
               a2 <- index args 2 ;; new_phone <- Phone.new a2 ;;
               Ok (phone, new_phone))
            with
            | Raise e => (notebook, Raise e)
            | Ok (phone, new_phone) =>
                let rec' := fst (ContactRecord.change_phone rec phone new_phone) in
                (AddressBook.set_item notebook a0 rec',
                 Ok (Str ("Contact " ++ Name.value (ContactRecord.name rec')
                          ++ " has changed successfully.")))
            end
        | None => (notebook, Ok (Str (not_in_notebook a0)))
        end
    end.

Definition change_number : handler := input_error change_number_body.

Definition del_number_body : handler :=
  fun notebook args =>
    match index args 0 with
    | Raise e => (notebook, Raise e)
    | Ok a0 =>
        match AddressBook.get notebook a0 with
        | Some rec =>
            match (a1 <- index args 1 ;; Phone.new a1) with
            | Raise e => (notebook, Raise e)
            | Ok phone =>
                let rec' := fst (ContactRecord.del_phone rec phone) in
                (AddressBook.set_item notebook a0 rec',
                 Ok (Str ("Contact " ++ Phone.value phone
                          ++ " has deleted successfully from contact "
                          ++ Name.value (ContactRecord.name rec') ++ ".")))
            end
        | None => (notebook, Ok (Str (not_in_notebook a0)))
        end
    end.

Definition del_number : handler := input_error del_number_body.

Definition print_phone_body : handler :=
  fun notebook args =>
    (notebook,
     a0 <- index args 0 ;; rec <- AddressBook.getitem notebook a0 ;; Ok (Rec rec)).

Definition print_phone : handler := input_error print_phone_body.

Definition del_contact_body : handler :=
  fun notebook args =>
    match index args 0 with
    | Raise e => (notebook, Raise e)
    | Ok a0 =>
        match AddressBook.del_record notebook a0 with
        | (notebook', Some rec) =>
            (notebook',
             Ok (Str ("Contact " ++ Name.value (ContactRecord.name rec)
                      ++ " has deleted successfully.")))
        | (notebook', None) => (notebook', Ok (Str (not_in_notebook a0)))
        end
    end.

Definition del_contact : handler := input_error del_contact_body.

Definition show_all : handler :=
  fun notebook _ =>
    (notebook,
     Ok (Str (if (0 <? List.length notebook)%nat then
                join (String newline "")
                     (map (fun kv => title (fst kv) ++ ": "
                                     ++ ContactRecord.repr (snd kv))
                          notebook)
              else "Contacts are empty"))).

Definition days_to_births_body (date_today : Date.t) : handler :=
  fun notebook args =>
    (notebook,
     a0 <- index args 0 ;;
     match AddressBook.get notebook a0 with
     | Some rec =>
         days <- ContactRecord.days_to_birthday date_today rec ;;
         Ok (Str (title (Name.value (ContactRecord.name rec)) ++ " has "
                  ++ str_of_int days ++ " days to birthday."))
     | None => Ok (Str (not_in_notebook a0))
     end).

Definition days_to_births (date_today : Date.t) : handler :=
  input_error (days_to_births_body date_today).

(** ** The command table, the parser and the loop *)

Inductive command : Type :=
| CmdGreeting
| CmdAddContact
| CmdChangeNumber
| CmdPrintPhone
| CmdShowAll
| CmdToExit
| CmdDelNumber
| CmdDelContact
| CmdDaysToBirths.

(** The function a key of [all_commands] stands for. *)
Definition call (date_today : Date.t) (c : command) : handler :=
  match c with
  | CmdGreeting => greeting
  | CmdAddContact => add_contact
  | CmdChangeNumber => change_number
  | CmdPrintPhone => print_phone
  | CmdShowAll => show_all
  | CmdToExit => to_exit
  | CmdDelNumber => del_number
  | CmdDelContact => del_contact
  | CmdDaysToBirths => days_to_births date_today
  end.

Definition all_commands : list (command * list string) :=
  [ (CmdGreeting, ["hello"; "hi"]);
    (CmdAddContact, ["add"; "new"; "+"]);
    (CmdChangeNumber, ["change"]);
    (CmdPrintPhone, ["phone"; "number"]);
    (CmdShowAll, ["show all"; "show"]);
    (CmdToExit, ["good bye"; "close"; "exit"; "."; "bye"]);
    (CmdDelNumber, ["del"; "delete"; "-"]);
    (CmdDelContact, ["remove"]);
    (CmdDaysToBirths, ["days"; "birthday"]) ].

(** The inner loop of [command_parser] over the aliases of one key. *)
Fixpoint parse_aliases (key : command) (value : list string)
    (user_input : string) : option (command * list string) :=
  match value with
  | [] => None
  | i :: value' =>
      if startswith (lower user_input) (lower i) then
        Some (key, split (strip (drop (String.length i) user_input)))
      else parse_aliases key value' user_input
  end.

(** The outer loop; falling out of it returns [None]. *)
Fixpoint parse_commands (table : list (command * list string))
    (user_input : string) : option (command * list string) :=
  match table with
  | [] => None
  | (key, value) :: table' =>
      match parse_aliases key value user_input with
      | Some found => Some found
      | None => parse_commands table' user_input
      end
  end.

Definition command_parser (user_input : string)
    : option (command * list string) :=
  parse_commands all_commands user_input.

(** [print(x)] writes [str(x)]. *)
Definition print (v : value) : string :=
  match v with
  | Str s => s
  | Rec r => ContactRecord.repr r
  end.

Definition is_to_exit (c : command) : bool :=
  match c with
  | CmdToExit => true
  | _ => false
  end.

(** How a run of [main] ends. *)
Inductive outcome : Type :=
| Exited
| Crashed (e : exn).

(** [main] on the lines [inputs] that [input] returns one after the
    other ([EOFError] after the last): the book at the end, what
    [print] wrote (the prompt of [input] is left out), and how the loop
    ended.  Unpacking the [None] that
    [command_parser] returns for an unknown command is a [TypeError]. *)
Fixpoint main (date_today : Date.t) (inputs : list string)
    (notebook : AddressBook.t) : AddressBook.t * list string * outcome :=
  match inputs with
  | [] => (notebook, [], Crashed EOFError)
  | user_input :: inputs' =>
      match command_parser user_input with
      | None =>
          (notebook, [],
           Crashed (TypeError "cannot unpack non-iterable NoneType object"))
      | Some (command, parser_data) =>
          match call date_today command notebook parser_data with
          | (notebook', Raise e) => (notebook', [], Crashed e)
          | (notebook', Ok v) =>
              if is_to_exit command then (notebook', [print v], Exited)
              else
                let '(notebook'', printed, how) :=
                  main date_today inputs' notebook' in
                (notebook'', print v :: printed, how)
          end
      end
  end.

(** * The vocabulary of the statements

    Sample data, the messages and exceptions the theorems name, and
    the predicates that say in the words of the claims what the
    program is compared with. *)

Local Open Scope list_scope.
Local Open Scope nat_scope.

(** ** Sample data *)

Definition alice : ContactRecord.t :=
  ContactRecord.new (Name.Build "Alice") [Phone.Build "1234567890"].

Definition three_contacts : AddressBook.t :=
  [ ("Alice", alice);
    ("Bob", ContactRecord.new (Name.Build "Bob") [Phone.Build "0123456789"]);
    ("Carol", ContactRecord.new (Name.Build "Carol") [Phone.Build "5555555555"]) ].

(** ** Sequences of book operations

    A sequence of [add_record] and [del_record] calls on a new book. *)
Inductive book_op : Type :=
| AddRecord (record : ContactRecord.t)
| DelRecord (key : string).

Definition apply_op (data : AddressBook.t) (op : book_op) : AddressBook.t :=
  match op with
  | AddRecord record => fst (AddressBook.add_record data record)
  | DelRecord key => fst (AddressBook.del_record data key)
  end.

Definition apply_ops (ops : list book_op) : AddressBook.t :=
  fold_left apply_op ops [].

(** ** Phones, messages and exceptions *)

(** [[p.value for p in r.phones]] *)
Definition phone_values (r : ContactRecord.t) : list string :=
  map Phone.value (ContactRecord.phones r).

(** The message of the [ValueError] that [Birthday] raises. *)
Definition birthday_message : string :=
  "Birthday must contain date in format DD.MM.YYYY!".

(** What Python raises for [None.value] and for unpacking [None]. *)
Definition none_has_no_value : exn :=
  AttributeError "'NoneType' object has no attribute 'value'".

Definition cannot_unpack_none : exn :=
  TypeError "cannot unpack non-iterable NoneType object".

(** ** Shapes of strings *)

Fixpoint all_chars (p : ascii -> bool) (s : string) : bool :=
  match s with
  | EmptyString => true
  | String c s' => p c && all_chars p s'
  end.

Definition ten_digits (s : string) : Prop :=
  String.length s = 10 /\ all_chars is_digit s = true.

(** ** The pattern of the format "%d.%m.%Y", taken apart

    The alternatives of the three groups, the pattern from a group to
    the end, and the run of each of these tails to the end of the
    pattern. *)

Definition day_alts : regex :=
  Or (Cat (Lit "3") (Class [("0", "1")]%char))
  (Or (Cat (Class [("1", "2")]%char) AnyDigit)
  (Or (Cat (Lit "0") (Class [("1", "9")]%char))
  (Or (Class [("1", "9")]%char)
      (Cat (Lit " ") (Class [("1", "9")]%char))))).

Definition month_alts : regex :=
  Or (Cat (Lit "1") (Class [("0", "2")]%char))
  (Or (Cat (Lit "0") (Class [("1", "9")]%char))
      (Class [("1", "9")]%char)).

Definition year_alts : regex :=
  Cat AnyDigit (Cat AnyDigit (Cat AnyDigit AnyDigit)).

Definition year_tail : regex := Cat (Group "Y" year_alts) Eps.
Definition month_tail : regex :=
  Cat (Group "m" month_alts) (Cat (Lit ".") year_tail).
Definition date_regex : regex :=
  Cat (Group "d" day_alts) (Cat (Lit ".") month_tail).

Definition at_end : cont := fun pos _ g => Some (pos, g).

Definition year_stage (pos : nat) (s : string) (g : groups) : option matched :=
  run year_tail pos s g at_end.

Definition month_stage (pos : nat) (s : string) (g : groups) : option matched :=
  run month_tail pos s g at_end.

Definition day_stage (pos : nat) (s : string) (g : groups) : option matched :=
  run date_regex pos s g at_end.

Definition is_dot (c : ascii) : bool := (c =? ".")%char.

(** The strings the groups of the month and of the day match. *)
Definition month_token (M : string) : bool :=
  match M with
  | String c EmptyString => in_class [("1", "9")]%char c
  | String c1 (String c2 EmptyString) =>
      ((c1 =? "1")%char && in_class [("0", "2")]%char c2)
      || ((c1 =? "0")%char && in_class [("1", "9")]%char c2)
  | _ => false
  end.

Definition day_token (D : string) : bool :=
  match D with
  | String c EmptyString => in_class [("1", "9")]%char c
  | String c1 (String c2 EmptyString) =>
      ((c1 =? "3")%char && in_class [("0", "1")]%char c2)
      || (in_class [("1", "2")]%char c1 && is_digit c2)
      || ((c1 =? "0")%char && in_class [("1", "9")]%char c2)
      || ((c1 =? " ")%char && in_class [("1", "9")]%char c2)
  | _ => false
  end.

(** ** Dates as strings

    The fields of a date string by their shape alone: four digits; one
    or two digits, or for the day a blank and a digit. *)

Definition year_field (Y : string) : bool :=
  (String.length Y =? 4) && all_chars is_digit Y.

Definition day_field (D : string) : bool :=
  match D with
  | String c EmptyString => is_digit c
  | String c1 (String c2 EmptyString) =>
      (is_digit c1 || (c1 =? " ")%char) && is_digit c2
  | _ => false
  end.

Definition month_field (M : string) : bool :=
  match M with
  | String c EmptyString => is_digit c
  | String c1 (String c2 EmptyString) => is_digit c1 && is_digit c2
  | _ => false
  end.

(** The strings of the amended claim: a day of one or two digits, or a
    blank and a digit; a month of one or two digits; a year of four
    digits; dots between them; and the three numbers a date. *)
Definition date_string (s : string) (d : Date.t) : Prop :=
  exists D M Y,
    s = (D ++ "." ++ M ++ "." ++ Y)%string
    /\ day_field D = true /\ month_field M = true /\ year_field Y = true
    /\ Date.new (int_of_str Y) (int_of_str M) (int_of_str D) = Ok d.

(** The strings of the claim as it is worded: two digits, a dot, two
    digits, a dot, four digits, and the three numbers a date. *)
Definition padded_date_string (s : string) : Prop :=
  exists d1 d2 m1 m2 y1 y2 y3 y4 date,
    s = String d1 (String d2 (String "."
          (String m1 (String m2 (String "."
            (String y1 (String y2 (String y3 (String y4 EmptyString)))))))))
    /\ forallb is_digit [d1; d2; m1; m2; y1; y2; y3; y4] = true
    /\ Date.new (int_of_str (String y1 (String y2 (String y3 (String y4 ""))))%string)
                (int_of_str (String m1 (String m2 "")))
                (int_of_str (String d1 (String d2 ""))) = Ok date.

(** ** Dates and birthdays *)

(** [alice] with the birthday [b]. *)
Definition with_birthday (b : Date.t) : ContactRecord.t :=
  ContactRecord.add_birthday alice (Some (Birthday.Build b)).

(** What [date] raises for a day its month does not have. *)
Definition day_out_of_range : exn :=
  ValueError "day is out of range for month".

(** The dates that [date(year, month, day)] builds. *)
Definition valid_date (d : Date.t) : Prop :=
  Date.new (Date.year d) (Date.month d) (Date.day d) = Ok d.

(** [a <= b] on dates: not [b < a]. *)
Definition date_le (a b : Date.t) : Prop := Date.ltb b a = false.

Definition month_cases (month : Z) : Prop :=
  (month = 1 \/ month = 2 \/ month = 3 \/ month = 4 \/ month = 5
   \/ month = 6 \/ month = 7 \/ month = 8 \/ month = 9 \/ month = 10
   \/ month = 11 \/ month = 12)%Z.

(** The days of a year before a date: less than the year is long, and
    growing with the date. *)
Definition day_of_year (d : Date.t) : Z :=
  (Date._days_before_month (Date.year d) (Date.month d) + Date.day d)%Z.

(** ** Names, arguments and stored contacts *)

(** Between one and twenty letters. *)
Definition letters_1_20 (s : string) : Prop :=
  1 <= String.length s <= 20 /\ all_chars is_alpha s = true.

(** An argument as [split] cuts it: not empty, no white space in it. *)
Definition no_space (c : ascii) : bool := negb (is_space c).

Definition word (s : string) : Prop :=
  s <> EmptyString /\ all_chars no_space s = true.

(** A contact as the handlers store it under [key]: the name is the
    key and passes [Name], every phone passes [Phone], and no phone
    value is there twice. *)
Definition record_ok (key : string) (r : ContactRecord.t) : Prop :=
  Name.new key = Ok (ContactRecord.name r)
  /\ Forall (fun p => Phone.new (Phone.value p) = Ok p) (ContactRecord.phones r)
  /\ NoDup (phone_values r).

Definition book_ok (notebook : AddressBook.t) : Prop :=
  AddressBook.wf notebook
  /\ Forall (fun kv => record_ok (fst kv) (snd kv)) notebook.

(** The exceptions [input_error] has a message for. *)
Definition caught (e : exn) : Prop :=
  e = IndexError \/ e = KeyError \/ exists msg, e = ValueError msg.

(** The ways [main] can end. *)
Definition expected_end (how : outcome) : Prop :=
  how = Exited
  \/ how = Crashed EOFError
  \/ how = Crashed cannot_unpack_none
  \/ how = Crashed none_has_no_value.

(** A parsed command with its arguments in lower case. *)
Definition lower_arguments (found : command * list string)
    : command * list string :=
  (fst found, map lower (snd found)).

(** * Properties *)

(** ** The program on sample inputs *)

Example phone_ok : Phone.new "1234567890" = Ok (Phone.Build "1234567890").
Proof. reflexivity. Qed.

Example phone_short : exists e, Phone.new "123456789" = Raise e.
Proof. eexists; reflexivity. Qed.

Example name_ok : Name.new "Alice" = Ok (Name.Build "Alice").
Proof. reflexivity. Qed.

Example birthday_leap :
  Birthday.new "29.02.2020" = Ok (Birthday.Build (Date.Build 2020 2 29)).
Proof. reflexivity. Qed.

Example birthday_not_leap :
  Birthday.new "29.02.2021"
  = Raise (ValueError "Birthday must contain date in format DD.MM.YYYY!").
Proof. reflexivity. Qed.

Example birthday_unpadded :
  Birthday.new "1.1.2000" = Ok (Birthday.Build (Date.Build 2000 1 1)).
Proof. reflexivity. Qed.

Example birthday_repr :
  Birthday.repr (Birthday.Build (Date.Build 2000 1 1)) = "2000-01-01".
Proof. reflexivity. Qed.

Example session :
  main (Date.Build 2026 11 4)
       ["add Alice 1234567890"; "phone Alice"; "show all"; "remove Alice";
        "phone Alice"; "exit"] []
  = ([],
     ["Contact Alice has added successfully."; "1234567890";
      "Alice: 1234567890"; "Contact Alice has deleted successfully.";
      "This contact doesn't exist."; "Good bye"],
     Exited).
Proof. vm_compute. reflexivity. Qed.

Example parse_show_all : command_parser "show all" = Some (CmdShowAll, []).
Proof. reflexivity. Qed.

(** ** The address book as a dictionary *)

Section BookLemmas.
Import AddressBook.

Lemma get_none_not_key (data : t) (key : string) :
  get data key = None <-> ~ In key (keys data).
Proof.
  induction data as [| [k v] rest IH]; simpl.
  - tauto.
  - destruct (String.eqb_spec k key) as [-> | Hne].
    + split; [discriminate | intros H; exfalso; apply H; now left].
    + rewrite IH. split; intros H.
      * intros [Heq | Hin]; [now apply Hne | now apply H].
      * intros Hin. apply H. now right.
Qed.

Lemma in_get (data : t) (key : string) (v : ContactRecord.t) :
  wf data -> In (key, v) data -> get data key = Some v.
Proof.
  unfold wf.
  induction data as [| [k w] rest IH]; simpl; [tauto |].
  intros Hnd [Heq | Hin].
  - injection Heq as -> ->. now rewrite String.eqb_refl.
  - inversion Hnd as [| ? ? Hnotin Hnd']; subst.
    destruct (String.eqb_spec k key) as [-> | Hne].
    + exfalso. apply Hnotin. change key with (fst (key, v)).
      now apply in_map.
    + now apply IH.
Qed.

Lemma keys_set_item_new (data : t) (key : string) (v : ContactRecord.t) :
  get data key = None -> keys (set_item data key v) = keys data ++ [key].
Proof.
  induction data as [| [k w] rest IH]; simpl; [reflexivity |].
  destruct (String.eqb k key); [discriminate |].
  intros H. simpl. now rewrite IH.
Qed.

Lemma set_item_new (data : t) (key : string) (v : ContactRecord.t) :
  get data key = None -> set_item data key v = data ++ [(key, v)].
Proof.
  induction data as [| [k w] rest IH]; simpl; [reflexivity |].
  destruct (String.eqb k key); [discriminate |].
  intros H. now rewrite IH.
Qed.

Lemma keys_pop_incl (data : t) (key k : string) :
  In k (keys (pop data key)) -> In k (keys data).
Proof.
  induction data as [| [k' w] rest IH]; simpl; [tauto |].
  destruct (String.eqb k' key); simpl; intuition.
Qed.

Lemma wf_pop (data : t) (key : string) : wf data -> wf (pop data key).
Proof.
  unfold wf.
  induction data as [| [k w] rest IH]; simpl; [trivial |].
  intros Hnd. inversion Hnd as [| ? ? Hnotin Hnd']; subst.
  destruct (String.eqb k key); [assumption |].
  simpl. constructor; [| now apply IH].
  intros Hin. apply Hnotin. now apply keys_pop_incl in Hin.
Qed.

Lemma wf_add_record (data : t) (record : ContactRecord.t) :
  wf data -> wf (fst (add_record data record)).
Proof.
  unfold add_record, wf. intros Hnd.
  destruct (get data _) eqn:Hget; simpl; [assumption |].
  rewrite keys_set_item_new by assumption.
  apply NoDup_app; [assumption | repeat constructor; simpl; tauto |].
  intros k Hin [<- | []]. now apply get_none_not_key in Hget.
Qed.

Lemma wf_del_record (data : t) (key : string) :
  wf data -> wf (fst (del_record data key)).
Proof.
  unfold del_record. intros Hnd.
  destruct (get data key); simpl; [now apply wf_pop | assumption].
Qed.
End BookLemmas.

Lemma wf_fold_ops (ops : list book_op) (data : AddressBook.t) :
  AddressBook.wf data -> AddressBook.wf (fold_left apply_op ops data).
Proof.
  revert data. induction ops as [| op ops IH]; simpl; intros data Hwf.
  - assumption.
  - apply IH. destruct op; simpl.
    + now apply wf_add_record.
    + now apply wf_del_record.
Qed.

Lemma wf_apply_ops (ops : list book_op) : AddressBook.wf (apply_ops ops).
Proof. apply wf_fold_ops. constructor. Qed.

(** C7: after any sequence of [add_record] and [del_record] calls on a
    new book, no name is a key twice and a name has at most one record;
    [add_record] with a record whose name is a key gives back the very
    same book and returns [None]. *)
Theorem C7_add_record_keeps_one_record_per_name (ops : list book_op) :
  let data := apply_ops ops in
  NoDup (AddressBook.keys data)
  /\ (forall key r1 r2, In (key, r1) data -> In (key, r2) data -> r1 = r2)
  /\ (forall record,
        In (Name.value (ContactRecord.name record)) (AddressBook.keys data) ->
        AddressBook.add_record data record = (data, None)).
Proof.
  intros data.
  assert (Hwf : AddressBook.wf data) by apply wf_apply_ops.
  split; [exact Hwf | split].
  - intros key r1 r2 H1 H2.
    apply (in_get _ _ _ Hwf) in H1. apply (in_get _ _ _ Hwf) in H2. congruence.
  - intros record Hkey. unfold AddressBook.add_record.
    destruct (AddressBook.get data _) eqn:Hget; [reflexivity |].
    now apply get_none_not_key in Hget.
Qed.

Example alice_twice :
  let data := apply_ops [AddRecord alice; AddRecord alice] in
  data = [("Alice", alice)]
  /\ AddressBook.add_record [("Alice", alice)] alice = ([("Alice", alice)], None).
Proof. split; reflexivity. Qed.

(** ** Bounded iteration *)

Lemma iterator_loop_suffix (data pre rest : AddressBook.t) (n count : Z) :
  AddressBook.wf data -> data = pre ++ rest ->
  AddressBook.iterator_loop data (AddressBook.keys rest) n count
  = (map snd (firstn (Z.to_nat (n - count)) rest), None).
Proof.
  intros Hwf. revert pre count.
  induction rest as [| [k v] rest IH]; intros pre count Hdata; simpl.
  - now rewrite firstn_nil.
  - destruct (Z.ltb_spec count n) as [Hlt | Hge].
    + unfold AddressBook.getitem.
      rewrite (in_get data k v Hwf)
        by (subst data; apply in_or_app; right; now left).
      rewrite (IH (pre ++ [(k, v)]) (count + 1)%Z)
        by (now rewrite <- app_assoc).
      replace (Z.to_nat (n - count)) with (S (Z.to_nat (n - (count + 1)))) by lia.
      reflexivity.
    + rewrite (IH (pre ++ [(k, v)]) count) by (now rewrite <- app_assoc).
      replace (Z.to_nat (n - count)) with 0 by lia.
      reflexivity.
Qed.

(** C1 (as the code behaves): on every book and for every [n],
    [iterator] yields the first [min n (size)] records in the book's
    order and then, instead of ending, raises [RuntimeError]: the
    [StopIteration] of the [else] clause never ends a generator quietly.
    The claim's graceful end does not hold. *)
Theorem C1_iterator_yields_then_raises (data : AddressBook.t) (n : Z) :
  AddressBook.wf data ->
  let yielded := map snd (firstn (Z.to_nat n) data) in
  AddressBook.iterator data n
  = (yielded,
     AddressBook.Raised (RuntimeError "generator raised StopIteration"))
  /\ List.length yielded = Nat.min (Z.to_nat n) (List.length data).
Proof.
  intros Hwf yielded. split.
  - unfold AddressBook.iterator, AddressBook.iterator_body.
    rewrite (iterator_loop_suffix data [] data n 0 Hwf eq_refl).
    rewrite Z.sub_0_r. reflexivity.
  - unfold yielded. now rewrite length_map, length_firstn.
Qed.

Lemma C1_witness :
  AddressBook.iterator three_contacts 10
  = (map snd three_contacts,
     AddressBook.Raised (RuntimeError "generator raised StopIteration"))
  /\ List.length (map snd (firstn (Z.to_nat 10) three_contacts))
     = Nat.min (Z.to_nat 10) (List.length three_contacts).
Proof.
  apply (C1_iterator_yields_then_raises three_contacts 10).
  unfold AddressBook.wf. simpl.
  repeat constructor; simpl; intuition discriminate.
Defined.

(** ** Phones of a record *)

Lemma has_value_in (value : string) (phones : list Phone.t) :
  ContactRecord.has_value value phones = true
  <-> In value (map Phone.value phones).
Proof.
  unfold ContactRecord.has_value. rewrite existsb_exists, in_map_iff.
  split.
  - intros [p [Hin Heq]]. apply String.eqb_eq in Heq. now exists p.
  - intros [p [Heq Hin]]. exists p. split; [assumption |].
    now apply String.eqb_eq.
Qed.

Lemma has_value_after_add (r : ContactRecord.t) (phone : Phone.t) :
  ContactRecord.has_value (Phone.value phone)
    (ContactRecord.phones (fst (ContactRecord.add_phone r phone))) = true.
Proof.
  unfold ContactRecord.add_phone.
  destruct (ContactRecord.has_value _ (ContactRecord.phones r)) eqn:Hhas; simpl.
  - assumption.
  - apply has_value_in. rewrite map_app. apply in_or_app. right. now left.
Qed.

(** The phone values of a record stay pairwise different under
    [add_phone]. *)
Lemma add_phone_keeps_nodup (r : ContactRecord.t) (phone : Phone.t) :
  NoDup (phone_values r) ->
  NoDup (phone_values (fst (ContactRecord.add_phone r phone))).
Proof.
  unfold phone_values, ContactRecord.add_phone. intros Hnd.
  destruct (ContactRecord.has_value _ _) eqn:Hhas; simpl; [assumption |].
  rewrite map_app. apply NoDup_app; [assumption | repeat constructor; simpl; tauto |].
  intros v Hin [<- | []].
  apply has_value_in in Hin. congruence.
Qed.

(** C9, the claim as worded, fails: a record can be built with the same
    phone twice, and [add_phone] leaves both entries in it. *)
Lemma C9_counterexample :
  ~ (forall (r : ContactRecord.t) (p : Phone.t),
       let r1 := fst (ContactRecord.add_phone r p) in
       let r2 := fst (ContactRecord.add_phone r1 p) in
       count_occ string_dec (phone_values r2) (Phone.value p) = 1).
Proof.
  intros Hclaim.
  specialize (Hclaim (ContactRecord.new (Name.Build "Alice")
                        [Phone.Build "1234567890"; Phone.Build "1234567890"])
                     (Phone.Build "1234567890")).
  vm_compute in Hclaim. discriminate Hclaim.
Qed.

(** C9: on every record, a second [add_phone] of the same phone, or of
    another phone object with the same digits, returns [None] and leaves
    the record as the first call left it.  The record then has as many
    entries for that value as it had before the first call, and one
    when it had none: exactly one entry unless the record was built
    with the value more than once. *)
Theorem C9_add_phone_twice (r : ContactRecord.t) (p p' : Phone.t) :
  Phone.value p' = Phone.value p ->
  let r1 := fst (ContactRecord.add_phone r p) in
  let before := count_occ string_dec (phone_values r) (Phone.value p) in
  let after := count_occ string_dec (phone_values r1) (Phone.value p) in
  ContactRecord.add_phone r1 p = (r1, None)
  /\ ContactRecord.add_phone r1 p' = (r1, None)
  /\ after = Nat.max 1 before
  /\ (after = 1 <-> before <= 1)
  /\ (NoDup (phone_values r) -> after = 1 /\ NoDup (phone_values r1)).
Proof.
  intros Hsame r1 before after.
  assert (Hhas : ContactRecord.has_value (Phone.value p)
                   (ContactRecord.phones r1) = true)
    by apply has_value_after_add.
  assert (Hafter : after = Nat.max 1 before).
  { subst after before r1. unfold ContactRecord.add_phone, phone_values.
    destruct (ContactRecord.has_value (Phone.value p) (ContactRecord.phones r))
      eqn:Hr; cbn [negb fst ContactRecord.phones].
    - apply has_value_in in Hr.
      apply (proj1 (count_occ_In string_dec _ _)) in Hr. lia.
    - assert (Hnot : ~ In (Phone.value p)
                         (map Phone.value (ContactRecord.phones r))).
      { intros Hin. apply has_value_in in Hin. congruence. }
      apply (proj1 (count_occ_not_In string_dec _ _)) in Hnot.
      rewrite map_app, count_occ_app, Hnot. cbn [map count_occ].
      destruct (string_dec (Phone.value p) (Phone.value p)); [reflexivity |].
      contradiction. }
  split; [| split; [| split; [| split]]].
  - unfold ContactRecord.add_phone at 1. now rewrite Hhas.
  - unfold ContactRecord.add_phone at 1. now rewrite Hsame, Hhas.
  - exact Hafter.
  - lia.
  - intros Hnd. split.
    + pose proof (proj1 (NoDup_count_occ string_dec _) Hnd (Phone.value p))
        as Hle.
      fold before in Hle. lia.
    + now apply add_phone_keeps_nodup.
Qed.

Lemma C9_witness :
  let r := ContactRecord.new (Name.Build "Alice")
             [Phone.Build "1234567890"; Phone.Build "5555555555";
              Phone.Build "5555555555"] in
  let p := Phone.Build "0987654321" in
  let r1 := fst (ContactRecord.add_phone r p) in
  let before := count_occ string_dec (phone_values r) "0987654321" in
  let after := count_occ string_dec (phone_values r1) "0987654321" in
  ContactRecord.add_phone r1 p = (r1, None)
  /\ ContactRecord.add_phone r1 (Phone.Build "0987654321") = (r1, None)
  /\ after = Nat.max 1 before
  /\ (after = 1 <-> before <= 1)
  /\ (NoDup (phone_values r) -> after = 1 /\ NoDup (phone_values r1)).
Proof.
  apply (C9_add_phone_twice
           (ContactRecord.new (Name.Build "Alice")
              [Phone.Build "1234567890"; Phone.Build "5555555555";
               Phone.Build "5555555555"])
           (Phone.Build "0987654321") (Phone.Build "0987654321")).
  reflexivity.
Defined.

(** ** What the constructors raise *)

Lemma name_new_value (name : string) (n : Name.t) :
  Name.new name = Ok n -> Name.value n = name.
Proof.
  unfold Name.new. destruct (re_match _ _); [| discriminate].
  now intros [= <-].
Qed.

Lemma date_new_raises (year month day : Z) (e : exn) :
  Date.new year month day = Raise e -> exists msg, e = ValueError msg.
Proof.
  unfold Date.new.
  repeat match goal with
         | |- context [if ?b then _ else _] => destruct b
         end;
    intros [= <-]; eauto.
Qed.

Lemma strptime_date_raises (data_string format : string) (e : exn) :
  Strptime.strptime_date data_string format = Raise e ->
  exists msg, e = ValueError msg.
Proof.
  unfold Strptime.strptime_date.
  destruct (Strptime.pattern format); [| intros [= <-]; eauto].
  destruct (re_match _ _) as [[found_end found_dict] |];
    [| intros [= <-]; eauto].
  destruct (negb _); [intros [= <-]; eauto |].
  apply date_new_raises.
Qed.

Lemma birthday_new_raises (value : string) (e : exn) :
  Birthday.new value = Raise e -> e = ValueError birthday_message.
Proof.
  unfold Birthday.new.
  destruct (Strptime.strptime_date value _) as [d | e'] eqn:Hparse;
    [discriminate |].
  apply strptime_date_raises in Hparse as [msg ->].
  now intros [= <-].
Qed.

(** ** The handlers *)

(** The decorator turns every [ValueError], whatever its message, into
    the text about phones. *)
Lemma input_error_value_error (func : handler)
    (notebook notebook' : AddressBook.t) (args : list string) (msg : string) :
  func notebook args = (notebook', Raise (ValueError msg)) ->
  input_error func notebook args = (notebook', Ok (Str phone_message)).
Proof. unfold input_error. now intros ->. Qed.

(** C10: [add_contact] with a valid new name, a valid phone and a third
    argument that is not a date stores the new record, without a
    birthday, and returns the text about phones instead of the success
    message: the record is added before the birthday is parsed, and the
    decorator has one message for every [ValueError]. *)
Theorem C10_add_contact_bad_birthday_still_adds
    (notebook : AddressBook.t) (name phone third : string)
    (rest : list string) (n : Name.t) (p : Phone.t) :
  Name.new name = Ok n ->
  AddressBook.get notebook name = None ->
  Phone.new phone = Ok p ->
  (forall b, Birthday.new third <> Ok b) ->
  let rec := ContactRecord.new n [p] in
  add_contact notebook (name :: phone :: third :: rest)
  = (notebook ++ [(name, rec)], Ok (Str phone_message))
  /\ ContactRecord.birthday rec = None
  /\ AddressBook.get (notebook ++ [(name, rec)]) name = Some rec
  /\ phone_message <> added_message rec
  /\ (forall func nb nb' args msg,
        func nb args = (nb', Raise (ValueError msg)) ->
        input_error func nb args = (nb', Ok (Str phone_message))).
Proof.
  intros Hname Hnew Hphone Hbad rec.
  assert (Hkey : Name.value n = name) by now apply name_new_value.
  assert (Hrun : add_contact_body notebook (name :: phone :: third :: rest)
                 = (notebook ++ [(name, rec)],
                    Raise (ValueError birthday_message))).
  { unfold add_contact_body. simpl. rewrite Hname. simpl. rewrite Hphone. simpl.
    unfold AddressBook.add_record. simpl. rewrite Hkey, Hnew.
    rewrite set_item_new by assumption.
    destruct (Birthday.new third) as [b | e] eqn:Hb.
    - now destruct (Hbad b).
    - apply birthday_new_raises in Hb as ->. reflexivity. }
  repeat split.
  - unfold add_contact. now apply input_error_value_error with (msg := birthday_message).
  - rewrite <- (set_item_new notebook name rec Hnew).
    clear Hrun. induction notebook as [| [k v] nb IH]; simpl in *.
    + now rewrite String.eqb_refl.
    + destruct (String.eqb k name) eqn:Hk; [discriminate |].
      simpl. rewrite Hk. now apply IH.
  - unfold phone_message, added_message. discriminate.
  - intros func nb nb' args msg. apply input_error_value_error.
Qed.

Lemma C10_witness :
  let rec := ContactRecord.new (Name.Build "Bob") [Phone.Build "0123456789"] in
  add_contact [("Alice", alice)] ["Bob"; "0123456789"; "tomorrow"]
  = ([("Alice", alice)] ++ [("Bob", rec)], Ok (Str phone_message))
  /\ ContactRecord.birthday rec = None
  /\ AddressBook.get ([("Alice", alice)] ++ [("Bob", rec)]) "Bob" = Some rec
  /\ phone_message <> added_message rec
  /\ (forall func nb nb' args msg,
        func nb args = (nb', Raise (ValueError msg)) ->
        input_error func nb args = (nb', Ok (Str phone_message))).
Proof.
  apply (C10_add_contact_bad_birthday_still_adds
           [("Alice", alice)] "Bob" "0123456789" "tomorrow" []
           (Name.Build "Bob") (Phone.Build "0123456789")).
  - reflexivity.
  - reflexivity.
  - reflexivity.
  - intros b. vm_compute. discriminate.
Defined.

(** C3 (as the code behaves): [add_contact] with a valid phone and a
    name that is already a key leaves the book as it was and returns
    the ordinary success message, with or without a valid birthday as
    third argument: the [None] that [add_record] returns is not looked
    at, so no message tells the duplicate apart. *)
Theorem C3_add_contact_duplicate_reports_success
    (notebook : AddressBook.t) (name phone : string)
    (n : Name.t) (p : Phone.t) (old : ContactRecord.t) :
  Name.new name = Ok n ->
  Phone.new phone = Ok p ->
  AddressBook.get notebook name = Some old ->
  add_contact notebook [name; phone]
  = (notebook, Ok (Str ("Contact " ++ name ++ " has added successfully.")))
  /\ (forall third rest b,
        Birthday.new third = Ok b ->
        add_contact notebook (name :: phone :: third :: rest)
        = (notebook,
           Ok (Str ("Contact " ++ name ++ " has added successfully.")))).
Proof.
  intros Hname Hphone Hold.
  assert (Hkey : Name.value n = name) by now apply name_new_value.
  split; [| intros third rest b Hb];
    unfold add_contact, input_error, add_contact_body; simpl;
    rewrite Hname; simpl; rewrite Hphone; simpl;
    unfold AddressBook.add_record; simpl; rewrite Hkey, Hold.
  - unfold added_message. simpl. now rewrite Hkey.
  - rewrite Hb. unfold added_message. simpl. now rewrite Hkey.
Qed.

Lemma C3_witness :
  add_contact [("Alice", alice)] ["Alice"; "0987654321"]
  = ([("Alice", alice)], Ok (Str "Contact Alice has added successfully."))
  /\ (forall third rest b,
        Birthday.new third = Ok b ->
        add_contact [("Alice", alice)] ("Alice" :: "0987654321" :: third :: rest)
        = ([("Alice", alice)],
           Ok (Str "Contact Alice has added successfully."))).
Proof.
  apply (C3_add_contact_duplicate_reports_success
           [("Alice", alice)] "Alice" "0987654321"
           (Name.Build "Alice") (Phone.Build "0987654321") alice);
    reflexivity.
Defined.

(** C4 (as the code behaves): for a record without a birthday the
    handler of the days-to-birthday command raises [AttributeError],
    which the decorator does not catch; [main] does not catch it
    either, so the line that asks for it ends the loop with nothing
    printed. *)
Theorem C4_days_without_birthday_raises
    (date_today : Date.t) (notebook : AddressBook.t) (name : string)
    (rest : list string) (rec : ContactRecord.t) :
  AddressBook.get notebook name = Some rec ->
  ContactRecord.birthday rec = None ->
  days_to_births date_today notebook (name :: rest)
  = (notebook, Raise none_has_no_value)
  /\ (forall user_input inputs,
        command_parser user_input = Some (CmdDaysToBirths, name :: rest) ->
        main date_today (user_input :: inputs) notebook
        = (notebook, [], Crashed none_has_no_value)).
Proof.
  intros Hget Hnone.
  assert (Hcall : days_to_births date_today notebook (name :: rest)
                  = (notebook, Raise none_has_no_value)).
  { unfold days_to_births, input_error, days_to_births_body. simpl.
    rewrite Hget. unfold ContactRecord.days_to_birthday. now rewrite Hnone. }
  split; [exact Hcall |].
  intros user_input inputs Hparse.
  cbn [main]. rewrite Hparse. cbn [call]. now rewrite Hcall.
Qed.

Lemma C4_witness :
  days_to_births (Date.Build 2026 11 4) [("Alice", alice)] ["Alice"]
  = ([("Alice", alice)], Raise none_has_no_value)
  /\ (forall user_input inputs,
        command_parser user_input = Some (CmdDaysToBirths, ["Alice"]) ->
        main (Date.Build 2026 11 4) (user_input :: inputs) [("Alice", alice)]
        = ([("Alice", alice)], [], Crashed none_has_no_value)).
Proof.
  apply (C4_days_without_birthday_raises
           (Date.Build 2026 11 4) [("Alice", alice)] "Alice" [] alice);
    reflexivity.
Defined.

Example days_without_birthday_session :
  main (Date.Build 2026 11 4)
       ["add Alice 1234567890"; "days Alice"; "hello"] []
  = ([("Alice", alice)], ["Contact Alice has added successfully."],
     Crashed none_has_no_value).
Proof. vm_compute. reflexivity. Qed.

(** ** The parser and the loop *)

Lemma parse_aliases_none (key : command) (value : list string)
    (user_input : string) :
  (forall i, In i value -> startswith (lower user_input) (lower i) = false) ->
  parse_aliases key value user_input = None.
Proof.
  induction value as [| i value IH]; simpl; intros Hno; [reflexivity |].
  rewrite (Hno i) by now left.
  apply IH. intros j Hj. apply Hno. now right.
Qed.

Lemma parse_commands_none (table : list (command * list string))
    (user_input : string) :
  (forall key value i,
     In (key, value) table -> In i value ->
     startswith (lower user_input) (lower i) = false) ->
  parse_commands table user_input = None.
Proof.
  induction table as [| [key value] table IH]; simpl; intros Hno;
    [reflexivity |].
  rewrite parse_aliases_none.
  - apply IH. intros k v i Hin. apply (Hno k v i). now right.
  - intros i. apply (Hno key value i). now left.
Qed.

(** C2 (as the code behaves): for an input line that starts, letter
    case apart, with no alias of the table, [command_parser] returns
    [None]; [main] then fails to unpack it, which ends the loop with a
    [TypeError]: nothing is printed for the line and the lines after it
    are never read. *)
Theorem C2_unknown_command_ends_loop
    (date_today : Date.t) (user_input : string) (inputs : list string)
    (notebook : AddressBook.t) :
  (forall key value i,
     In (key, value) all_commands -> In i value ->
     startswith (lower user_input) (lower i) = false) ->
  command_parser user_input = None
  /\ main date_today (user_input :: inputs) notebook
     = (notebook, [], Crashed cannot_unpack_none).
Proof.
  intros Hno.
  assert (Hparse : command_parser user_input = None)
    by now apply parse_commands_none.
  split; [exact Hparse |].
  simpl. now rewrite Hparse.
Qed.

Lemma C2_witness :
  command_parser "foo" = None
  /\ main (Date.Build 2026 11 4) ["foo"; "hello"] []
     = ([], [], Crashed cannot_unpack_none).
Proof.
  apply (C2_unknown_command_ends_loop (Date.Build 2026 11 4) "foo" ["hello"] []).
  intros key value i Hin Hi. simpl in Hin.
  repeat (destruct Hin as [Hin | Hin];
          [injection Hin as <- <-; simpl in Hi;
           repeat (destruct Hi as [<- | Hi]; [reflexivity |]); destruct Hi |]).
  destruct Hin.
Defined.

(** ** Which strings the patterns accept *)

Lemma take_drop (n : nat) (s : string) : (take n s ++ drop n s)%string = s.
Proof.
  revert s. induction n as [| n IH]; intros [| c s]; simpl; try reflexivity.
  now rewrite IH.
Qed.

Lemma length_take (n : nat) (s : string) :
  n <= String.length s -> String.length (take n s) = n.
Proof.
  revert s. induction n as [| n IH]; intros [| c s]; simpl; try lia.
  intros Hle. rewrite IH; lia.
Qed.

Lemma take_all (s : string) : take (String.length s) s = s.
Proof. induction s as [| c s IH]; simpl; congruence. Qed.

Lemma append_empty_r (s : string) : (s ++ "")%string = s.
Proof. induction s as [| c s IH]; simpl; congruence. Qed.

Lemma take_app (a b : string) : take (String.length a) (a ++ b)%string = a.
Proof. induction a as [| c a IH]; simpl; [now destruct b | now rewrite IH]. Qed.

Lemma drop_app (a b : string) : drop (String.length a) (a ++ b)%string = b.
Proof. induction a as [| c a IH]; simpl; [reflexivity | assumption]. Qed.

Lemma length_append (a b : string) :
  String.length (a ++ b)%string = String.length a + String.length b.
Proof. induction a as [| c a IH]; simpl; [reflexivity | now rewrite IH]. Qed.

Lemma or_else_none_r (a : option matched) : or_else a None = a.
Proof. now destruct a. Qed.

(** [r{n}] for a character class [r]: the next [n] characters are all
    in the class, and the match goes on behind them. *)
Lemma repeat_class_exact (p : ascii -> bool) (n pos : nat)
    (s : string) (g : groups) (k : cont) :
  repeat_run (one_char p) n n pos s g k
  = if (n <=? String.length s) && all_chars p (take n s)
    then k (pos + n) (drop n s) g
    else None.
Proof.
  revert pos s. induction n as [| n IH]; intros pos s; simpl.
  - now rewrite Nat.add_0_r.
  - destruct s as [| c s]; simpl; [reflexivity |].
    destruct (p c); simpl.
    + rewrite IH. replace (S pos + n) with (pos + S n) by lia.
      apply or_else_none_r.
    + now rewrite andb_false_r.
Qed.

Lemma in_class_digit (c : ascii) :
  in_class [("0", "9")%char] c = is_digit c.
Proof. unfold in_class, is_digit. simpl. now rewrite orb_false_r. Qed.

Lemma all_chars_ext (p q : ascii -> bool) (s : string) :
  (forall c, p c = q c) -> all_chars p s = all_chars q s.
Proof.
  intros Hpq. induction s as [| c s IH]; simpl; [reflexivity |].
  now rewrite Hpq, IH.
Qed.

Lemma phone_pattern_match (s : string) :
  re_match phone_pattern s <> None
  <-> ten_digits (take 10 s)
      /\ (drop 10 s = EmptyString \/ drop 10 s = String newline EmptyString).
Proof.
  change (re_match phone_pattern s)
    with (repeat_run (one_char (in_class [("0", "9")%char])) 10 10 0 s []
            (fun pos' s' g' => run Eol pos' s' g' (fun pos _ g => Some (pos, g)))).
  rewrite repeat_class_exact. cbn [run].
  rewrite (all_chars_ext _ _ _ in_class_digit).
  unfold ten_digits.
  assert (Hshort : String.length (take 10 s) <= String.length s).
  { rewrite <- (take_drop 10 s) at 2. rewrite length_append. lia. }
  pose proof (length_take 10 s) as Hlong.
  remember (take 10 s) as t eqn:Et. remember (drop 10 s) as r eqn:Er.
  clear Et Er.
  destruct (Nat.leb_spec 10 (String.length s)) as [Hlen | Hlen]; cbn [andb].
  - rewrite (Hlong Hlen).
    destruct (all_chars is_digit t).
    + destruct r as [| c [| c' rest]].
      * split; [intros _; repeat split; now left | intros _; discriminate].
      * destruct (Ascii.eqb_spec c newline) as [-> | Hne].
        -- split; [intros _; repeat split; now right | intros _; discriminate].
        -- split; [congruence |]. intros [_ [H | H]]; congruence.
      * split; [congruence |]. intros [_ [H | H]]; congruence.
    + split; [congruence |]. intros [[_ H] _]. discriminate.
  - split; [congruence |]. intros [[Hten _] _]. lia.
Qed.

(** [Phone] accepts the strings of ten digits, keeping them as they
    are, and also a string of ten digits followed by one newline: [$]
    matches before a newline that ends the string.  Every other string
    raises the [ValueError] about phones. *)
Theorem phone_new_accepts (s : string) :
  (Phone.new s = Ok (Phone.Build s)
   <-> ten_digits s
       \/ exists d, ten_digits d /\ s = (d ++ String newline EmptyString)%string)
  /\ (Phone.new s = Ok (Phone.Build s)
      \/ Phone.new s = Raise (ValueError phone_message)).
Proof.
  pose proof (phone_pattern_match s) as Hmatch.
  unfold Phone.new. split.
  - destruct (re_match phone_pattern s) as [m |].
    + split; [intros _ | reflexivity].
      destruct Hmatch as [[Hten Hrest] _]; [discriminate |].
      rewrite <- (take_drop 10 s).
      destruct Hrest as [-> | ->].
      * left. now rewrite append_empty_r.
      * right. now exists (take 10 s).
    + split; [discriminate |]. intros Hshape. exfalso.
      apply (proj2 Hmatch); [| reflexivity].
      destruct Hshape as [[Hlen Hdig] | [d [[Hlen Hdig] ->]]].
      * rewrite <- (append_empty_r s) at 1 2.
        rewrite <- Hlen, take_app, drop_app.
        split; [now split | now left].
      * rewrite <- Hlen, take_app, drop_app.
        split; [now split | now right].
  - destruct (re_match phone_pattern s); [now left | now right].
Qed.

(** C8 (as the code behaves): a string of ten digits followed by a
    newline has eleven characters, one of them not a digit, and [Phone]
    accepts it and keeps it whole. *)
Theorem C8_phone_accepts_trailing_newline :
  let s := ("1234567890" ++ String newline EmptyString)%string in
  Phone.new s = Ok (Phone.Build s)
  /\ String.length s = 11
  /\ all_chars is_digit s = false.
Proof. repeat split. Qed.

(** ** Which strings parse as a date

    The pattern is taken apart from the right: the year and the end,
    the month followed by a dot, the day followed by a dot. *)

Lemma pattern_date : Strptime.pattern "%d.%m.%Y" = Some date_regex.
Proof. reflexivity. Qed.

Lemma one_char_cons (p : ascii -> bool) (pos : nat) (c : ascii) (s : string)
    (g : groups) (k : cont) :
  one_char p pos (String c s) g k = if p c then k (S pos) s g else None.
Proof. reflexivity. Qed.

Lemma one_char_nil (p : ascii -> bool) (pos : nat) (g : groups) (k : cont) :
  one_char p pos EmptyString g k = None.
Proof. reflexivity. Qed.

Lemma sub_1 (pos : nat) : S pos - pos = 1.
Proof. lia. Qed.

Lemma sub_2 (pos : nat) : S (S pos) - pos = 2.
Proof. lia. Qed.

Lemma sub_4 (pos : nat) : S (S (S (S pos))) - pos = 4.
Proof. lia. Qed.

(** A test on a character that is written out is computed. *)
Ltac ground_tests :=
  repeat match goal with
         | |- context [in_class ?r (Ascii ?a ?b ?c ?d ?e ?f ?g ?h)] =>
             let t := constr:(in_class r (Ascii a b c d e f g h)) in
             let v := eval vm_compute in t in
             change t with v
         | |- context [is_digit (Ascii ?a ?b ?c ?d ?e ?f ?g ?h)] =>
             let t := constr:(is_digit (Ascii a b c d e f g h)) in
             let v := eval vm_compute in t in
             change t with v
         | |- context [Ascii.eqb (Ascii ?a ?b ?c ?d ?e ?f ?g ?h)
                                 (Ascii ?a' ?b' ?c' ?d' ?e' ?f' ?g' ?h')] =>
             let t := constr:(Ascii.eqb (Ascii a b c d e f g h)
                                        (Ascii a' b' c' d' e' f' g' h')) in
             let v := eval vm_compute in t in
             change t with v
         end.

(** One step of running a pattern on a string that is known only in
    part: look at the next character, or decide the next test. *)
Ltac regex_step :=
  first
    [ rewrite one_char_nil
    | rewrite one_char_cons
    | match goal with
      | |- context [one_char _ _ ?s _ _] => is_var s; destruct s
      end
    | match goal with
      | |- context [if is_dot ?c then _ else _] =>
          is_var c; change (is_dot c) with (c =? ".")%char;
          destruct (Ascii.eqb_spec c "."); [subst c |]
      | |- context [is_dot (Ascii ?a ?b ?c ?d ?e ?f ?g ?h)] =>
          let t := constr:(is_dot (Ascii a b c d e f g h)) in
          let v := eval vm_compute in t in
          change t with v
      end
    | match goal with
      | |- context [if ?t then _ else _] => destruct t eqn:?
      end ];
  cbn [or_else andb orb]; ground_tests; cbn [or_else andb orb].

Lemma year_stage_eq (pos : nat) (s : string) (g : groups) :
  year_stage pos s g
  = if (4 <=? String.length s) && all_chars is_digit (take 4 s)
    then Some (4 + pos, ("Y", take 4 s) :: g)
    else None.
Proof.
  unfold year_stage, year_tail, year_alts, at_end. cbn [run].
  destruct s as [| c1 [| c2 [| c3 [| c4 s]]]];
    cbn [one_char String.length Nat.leb andb take all_chars];
    repeat match goal with
           | |- context [is_digit ?c] => destruct (is_digit c)
           end;
    cbn [andb]; try reflexivity.
  now rewrite sub_4.
Qed.

Lemma or_else_some (a b : option matched) (r : matched) :
  or_else a b = Some r -> a = Some r \/ b = Some r.
Proof. destruct a; simpl; intros H; [left | right]; assumption. Qed.

(** The leaves of a case analysis.  [or_else_cases H] finds the
    alternative that gave the result [H]; [use_tests] closes a goal
    about tests that have been decided. *)
Ltac or_else_cases H :=
  repeat match type of H with
         | or_else _ _ = Some _ =>
             apply or_else_some in H; destruct H as [H | H]
         end;
  try discriminate H.

Ltac use_tests :=
  repeat match goal with
         | E : ?t = _ |- context [?t] => rewrite E
         end;
  cbn [andb orb]; rewrite ?orb_true_r; reflexivity.

Lemma month_stage_unfold (pos : nat) (s : string) (g : groups) :
  month_stage pos s g
  = run month_alts pos s g
      (fun pos' s' g' =>
         one_char is_dot pos' s' (("m", take (pos' - pos) s) :: g') year_stage).
Proof. reflexivity. Qed.

Lemma day_stage_unfold (pos : nat) (s : string) (g : groups) :
  day_stage pos s g
  = run day_alts pos s g
      (fun pos' s' g' =>
         one_char is_dot pos' s' (("d", take (pos' - pos) s) :: g') month_stage).
Proof. reflexivity. Qed.

Lemma month_stage_sound (pos : nat) (s : string) (g : groups) (r : matched) :
  month_stage pos s g = Some r ->
  exists M rest,
    s = (M ++ "." ++ rest)%string
    /\ month_token M = true
    /\ year_stage (String.length M + 1 + pos) rest (("m", M) :: g) = Some r.
Proof.
  rewrite month_stage_unfold. unfold month_alts. cbn [run or_else].
  repeat regex_step; intros H; or_else_cases H;
    rewrite ?sub_1, ?sub_2 in H; cbn [take] in H;
    match type of H with
    | year_stage _ ?rest (("m", ?M) :: _) = _ => exists M, rest
    end;
    (split; [reflexivity | split; [cbn [month_token]; use_tests | exact H]]).
Qed.

Lemma month_stage_complete (pos : nat) (M rest : string) (g : groups)
    (r : matched) :
  month_token M = true ->
  year_stage (String.length M + 1 + pos) rest (("m", M) :: g) = Some r ->
  month_stage pos (M ++ "." ++ rest)%string g = Some r.
Proof.
  rewrite month_stage_unfold. unfold month_alts. cbn [run or_else].
  destruct M as [| c1 [| c2 [| c3 M]]];
    cbn [month_token String.length Nat.add append]; try discriminate;
    repeat regex_step; intros Htok HY; try discriminate Htok;
    rewrite ?sub_1, ?sub_2; cbn [take]; rewrite HY; reflexivity.
Qed.

Lemma day_stage_sound (pos : nat) (s : string) (g : groups) (r : matched) :
  day_stage pos s g = Some r ->
  exists D rest,
    s = (D ++ "." ++ rest)%string
    /\ day_token D = true
    /\ month_stage (String.length D + 1 + pos) rest (("d", D) :: g) = Some r.
Proof.
  rewrite day_stage_unfold. unfold day_alts. cbn [run or_else].
  repeat regex_step; intros H; or_else_cases H;
    rewrite ?sub_1, ?sub_2 in H; cbn [take] in H;
    match type of H with
    | month_stage _ ?rest (("d", ?D) :: _) = _ => exists D, rest
    end;
    (split; [reflexivity | split; [cbn [day_token]; use_tests | exact H]]).
Qed.

Lemma day_stage_complete (pos : nat) (D rest : string) (g : groups)
    (r : matched) :
  day_token D = true ->
  month_stage (String.length D + 1 + pos) rest (("d", D) :: g) = Some r ->
  day_stage pos (D ++ "." ++ rest)%string g = Some r.
Proof.
  rewrite day_stage_unfold. unfold day_alts. cbn [run or_else].
  destruct D as [| c1 [| c2 [| c3 D]]];
    cbn [day_token String.length Nat.add append]; try discriminate;
    repeat regex_step; intros Htok HY; try discriminate Htok;
    rewrite ?sub_1, ?sub_2; cbn [take]; rewrite HY; reflexivity.
Qed.

Lemma re_match_date (s : string) : re_match date_regex s = day_stage 0 s [].
Proof. reflexivity. Qed.

(** The data the pattern matches to its end, and the groups. *)
Lemma date_regex_match (s : string) (g : groups) :
  re_match date_regex s = Some (String.length s, g)
  <-> exists D M Y,
        s = (D ++ "." ++ M ++ "." ++ Y)%string
        /\ day_token D = true /\ month_token M = true /\ year_field Y = true
        /\ g = [("Y", Y); ("m", M); ("d", D)].
Proof.
  rewrite re_match_date. split.
  - intros Hday.
    apply day_stage_sound in Hday as (D & rest & -> & HD & Hmonth).
    apply month_stage_sound in Hmonth as (M & Y & -> & HM & Hyear).
    rewrite year_stage_eq in Hyear.
    destruct (Nat.leb_spec 4 (String.length Y)) as [Hlen | Hlen];
      [| discriminate].
    destruct (all_chars is_digit (take 4 Y)) eqn:Hdig; [| discriminate].
    cbn [andb] in Hyear. remember (take 4 Y) as Y4 eqn:HY4.
    injection Hyear as Hend <-.
    repeat (rewrite length_append in Hend
            || cbn [String.length append] in Hend).
    assert (Hfour : String.length Y = 4) by lia.
    rewrite <- Hfour, take_all in HY4. subst Y4.
    exists D, M, Y. repeat split; try assumption.
    unfold year_field. now rewrite Hfour, Hdig.
  - intros (D & M & Y & -> & HD & HM & HY & ->).
    unfold year_field in HY. apply andb_true_iff in HY as [Hfour Hdig].
    apply Nat.eqb_eq in Hfour.
    apply day_stage_complete; [assumption |].
    apply month_stage_complete; [assumption |].
    rewrite year_stage_eq.
    replace (take 4 Y) with Y by (now rewrite <- Hfour, take_all).
    rewrite Hfour, Hdig. cbn [Nat.leb andb].
    repeat (rewrite length_append || cbn [String.length append]).
    rewrite Hfour. apply f_equal. apply f_equal2; [lia | reflexivity].
Qed.

(** ** Tokens as numbers *)

Lemma code_inj (a b : ascii) : code a = code b -> a = b.
Proof.
  unfold code. intros H.
  rewrite <- (ascii_nat_embedding a), <- (ascii_nat_embedding b).
  now rewrite H.
Qed.

Lemma ascii_eqb_code (a b : ascii) : (a =? b)%char = (code a =? code b).
Proof.
  destruct (Ascii.eqb_spec a b) as [-> | Hne].
  - now rewrite Nat.eqb_refl.
  - symmetry. apply Nat.eqb_neq. intros H. now apply Hne, code_inj.
Qed.

(** Character tests as comparisons of character codes, decided one
    after the other; a case that contradicts the comparisons made so
    far is dropped. *)
Ltac ground_codes :=
  repeat match goal with
         | |- context [code (Ascii ?a ?b ?c ?d ?e ?f ?g ?h)] =>
             let t := constr:(code (Ascii a b c d e f g h)) in
             let v := eval vm_compute in t in
             change t with v
         end.

Ltac tests_to_codes :=
  unfold is_space, is_digit, in_class, in_range;
  cbn [existsb fst snd];
  rewrite ?ascii_eqb_code; ground_codes.

Ltac decide_comparisons :=
  repeat (match goal with
          | |- context [(?a <=? ?b)%nat] => destruct (Nat.leb_spec a b)
          | |- context [(?a =? ?b)%nat] => destruct (Nat.eqb_spec a b)
          end;
          try (exfalso; lia);
          cbn [andb orb negb]).

Lemma day_token_field (D : string) :
  day_token D = true
  <-> day_field D = true /\ (1 <= int_of_str D <= 31)%Z.
Proof.
  destruct D as [| c1 [| c2 [| c3 D]]];
    cbn [day_token day_field]; unfold int_of_str; cbn [lstrip];
    try (split; [intros Hf; discriminate Hf | intros [Hf _]; discriminate Hf]).
  - tests_to_codes. decide_comparisons; cbn [int_digits].
    all: try (split; [intros _; split; [reflexivity | lia] | reflexivity]).
    all: split; [intros Hf; discriminate Hf
                | intros [Hf Hr]; first [discriminate Hf | lia]].
  - tests_to_codes. decide_comparisons; cbn [int_digits].
    all: try (split; [intros _; split; [reflexivity | lia] | reflexivity]).
    all: split; [intros Hf; discriminate Hf
                | intros [Hf Hr]; first [discriminate Hf | lia]].
Qed.

Lemma month_token_field (M : string) :
  month_token M = true
  <-> month_field M = true /\ (1 <= int_of_str M <= 12)%Z.
Proof.
  destruct M as [| c1 [| c2 [| c3 M]]];
    cbn [month_token month_field]; unfold int_of_str; cbn [lstrip];
    try (split; [intros Hf; discriminate Hf | intros [Hf _]; discriminate Hf]).
  - tests_to_codes. decide_comparisons; cbn [int_digits].
    all: try (split; [intros _; split; [reflexivity | lia] | reflexivity]).
    all: split; [intros Hf; discriminate Hf
                | intros [Hf Hr]; first [discriminate Hf | lia]].
  - tests_to_codes. decide_comparisons; cbn [int_digits].
    all: try (split; [intros _; split; [reflexivity | lia] | reflexivity]).
    all: split; [intros Hf; discriminate Hf
                | intros [Hf Hr]; first [discriminate Hf | lia]].
Qed.

Lemma days_in_month_le_31 (year month : Z) :
  (1 <= month <= 12)%Z -> (Date._days_in_month year month <= 31)%Z.
Proof.
  intros Hm. unfold Date._days_in_month.
  destruct (_ && _); [lia |].
  assert (Hcases : (month = 1 \/ month = 2 \/ month = 3 \/ month = 4
                    \/ month = 5 \/ month = 6 \/ month = 7 \/ month = 8
                    \/ month = 9 \/ month = 10 \/ month = 11 \/ month = 12)%Z)
    by lia.
  repeat (destruct Hcases as [-> | Hcases]; [simpl; lia |]).
  subst month. simpl. lia.
Qed.

Lemma date_new_ok (year month day : Z) (d : Date.t) :
  Date.new year month day = Ok d ->
  d = Date.Build year month day
  /\ (1 <= year <= 9999)%Z
  /\ (1 <= month <= 12)%Z
  /\ (1 <= day <= Date._days_in_month year month)%Z.
Proof.
  unfold Date.new, Date.MINYEAR, Date.MAXYEAR.
  repeat match goal with
         | |- context [(?a <=? ?b)%Z] => destruct (Z.leb_spec a b)
         end;
    cbn [andb negb]; intros Hnew; try discriminate Hnew.
  injection Hnew as <-. repeat split; assumption.
Qed.

Lemma strptime_date_spec (s : string) (d : Date.t) :
  Strptime.strptime_date s "%d.%m.%Y" = Ok d <-> date_string s d.
Proof.
  unfold Strptime.strptime_date. rewrite pattern_date. split.
  - destruct (re_match date_regex s) as [[found_end found_dict] |] eqn:Hmatch;
      [| discriminate].
    destruct (Nat.eqb_spec (String.length s) found_end) as [<- | Hne];
      [| discriminate].
    cbn [negb].
    apply date_regex_match in Hmatch
      as (D & M & Y & -> & HD & HM & HY & ->).
    change (group "Y" [("Y", Y); ("m", M); ("d", D)]) with Y.
    change (group "m" [("Y", Y); ("m", M); ("d", D)]) with M.
    change (group "d" [("Y", Y); ("m", M); ("d", D)]) with D.
    intros Hdate. exists D, M, Y.
    apply day_token_field in HD as [HD _].
    apply month_token_field in HM as [HM _].
    repeat split; assumption.
  - intros (D & M & Y & -> & HD & HM & HY & Hdate).
    destruct (date_new_ok _ _ _ _ Hdate) as (_ & _ & Hmonth & Hday).
    pose proof (days_in_month_le_31 (int_of_str Y) _ Hmonth) as Hdim.
    assert (Hmatch : re_match date_regex (D ++ "." ++ M ++ "." ++ Y)%string
                     = Some (String.length (D ++ "." ++ M ++ "." ++ Y)%string,
                             [("Y", Y); ("m", M); ("d", D)])).
    { apply date_regex_match. exists D, M, Y.
      repeat split; try assumption.
      - apply day_token_field. split; [assumption | lia].
      - apply month_token_field. split; assumption. }
    rewrite Hmatch, Nat.eqb_refl. exact Hdate.
Qed.

Lemma birthday_new_spec (s : string) (d : Date.t) :
  Birthday.new s = Ok (Birthday.Build d) <-> date_string s d.
Proof.
  rewrite <- strptime_date_spec. unfold Birthday.new.
  destruct (Strptime.strptime_date s "%d.%m.%Y") as [d' | e].
  - split; [intros [= ->] | intros [= ->]]; reflexivity.
  - split; [| discriminate]. destruct e; discriminate.
Qed.

(** C5, the claim as worded, fails: [Birthday] takes "1.1.2000", whose
    day and month are not padded to two digits. *)
Lemma C5_counterexample :
  ~ (forall s, (exists b, Birthday.new s = Ok b) <-> padded_date_string s).
Proof.
  intros Hclaim.
  destruct (proj1 (Hclaim "1.1.2000")) as
    (d1 & d2 & m1 & m2 & y1 & y2 & y3 & y4 & date & Hs & _).
  - eexists. reflexivity.
  - discriminate Hs.
Qed.

(** C5 (amended): [Birthday] is built exactly from the strings
    day.month.year whose day is one or two digits (or a blank and a
    digit), whose month is one or two digits and whose year is four
    digits, the three being a date of the calendar from the year 1 on;
    every other string raises the [ValueError] about birthdays.  The
    padded strings of the claim are among them; "29.02.2020" is taken
    and "29.02.2021" is not. *)
Theorem C5_birthday_accepts_lenient_dates :
  (forall s d, Birthday.new s = Ok (Birthday.Build d) <-> date_string s d)
  /\ (forall s,
        (forall d, ~ date_string s d) ->
        Birthday.new s = Raise (ValueError birthday_message))
  /\ (forall s, padded_date_string s -> exists b, Birthday.new s = Ok b)
  /\ Birthday.new "29.02.2020" = Ok (Birthday.Build (Date.Build 2020 2 29))
  /\ Birthday.new "29.02.2021" = Raise (ValueError birthday_message).
Proof.
  split; [exact birthday_new_spec | split; [| split; [| split; reflexivity]]].
  - intros s Hnot.
    destruct (Birthday.new s) as [[d] | e] eqn:Hnew.
    + apply birthday_new_spec in Hnew. now destruct (Hnot d).
    + now apply birthday_new_raises in Hnew as ->.
  - intros s (d1 & d2 & m1 & m2 & y1 & y2 & y3 & y4 & date & -> & Hdig & Hdate).
    exists (Birthday.Build date). apply birthday_new_spec.
    cbn [forallb] in Hdig.
    repeat (apply andb_true_iff in Hdig as [? Hdig]).
    exists (String d1 (String d2 "")), (String m1 (String m2 "")),
      (String y1 (String y2 (String y3 (String y4 "")))).
    split; [reflexivity |].
    unfold day_field, month_field, year_field.
    cbn [String.length Nat.eqb all_chars].
    repeat match goal with
           | E : is_digit ?c = true |- _ => rewrite E; clear E
           end.
    repeat split; assumption.
Qed.

(** ** Days to the birthday *)

Example days_to_new_year :
  ContactRecord.days_to_birthday (Date.Build 2099 12 31)
    (with_birthday (Date.Build 2000 1 1)) = Ok 1%Z.
Proof. reflexivity. Qed.

Example days_on_the_birthday :
  ContactRecord.days_to_birthday (Date.Build 2026 11 4)
    (with_birthday (Date.Build 1990 11 4)) = Ok 0%Z.
Proof. reflexivity. Qed.

(** C6 (as the code behaves): for a birthday on 29 February and a day
    in a year that is not a leap year, [days_to_birthday] builds the
    date 29 February of that year, which raises [ValueError]; the
    handler then answers with the text about phones instead of a
    number of days. *)
Theorem C6_leap_day_birthday_raises
    (date_today : Date.t) (r : ContactRecord.t) (b : Birthday.t) :
  ContactRecord.birthday r = Some b ->
  Date.month (Birthday.value b) = 2%Z ->
  Date.day (Birthday.value b) = 29%Z ->
  (1 <= Date.year date_today <= 9999)%Z ->
  Date._is_leap (Date.year date_today) = false ->
  ContactRecord.days_to_birthday date_today r = Raise day_out_of_range
  /\ (forall notebook name rest,
        AddressBook.get notebook name = Some r ->
        days_to_births date_today notebook (name :: rest)
        = (notebook, Ok (Str phone_message))).
Proof.
  intros Hb Hmonth Hday Hyear Hleap.
  assert (Hraise : ContactRecord.days_to_birthday date_today r
                   = Raise day_out_of_range).
  { unfold ContactRecord.days_to_birthday. rewrite Hb, Hmonth, Hday.
    unfold Date.new, Date._days_in_month, Date.MINYEAR, Date.MAXYEAR.
    rewrite Hleap.
    destruct (Z.leb_spec 1 (Date.year date_today)); [| lia].
    destruct (Z.leb_spec (Date.year date_today) 9999); [| lia].
    reflexivity. }
  split; [exact Hraise |].
  intros notebook name rest Hget.
  unfold days_to_births, input_error, days_to_births_body. simpl.
  now rewrite Hget, Hraise.
Qed.

Lemma C6_witness :
  ContactRecord.days_to_birthday (Date.Build 2021 1 1)
    (with_birthday (Date.Build 2020 2 29)) = Raise day_out_of_range
  /\ (forall notebook name rest,
        AddressBook.get notebook name
        = Some (with_birthday (Date.Build 2020 2 29)) ->
        days_to_births (Date.Build 2021 1 1) notebook (name :: rest)
        = (notebook, Ok (Str phone_message))).
Proof.
  apply (C6_leap_day_birthday_raises (Date.Build 2021 1 1)
           (with_birthday (Date.Build 2020 2 29))
           (Birthday.Build (Date.Build 2020 2 29)));
    try reflexivity.
  simpl. lia.
Defined.

(** *** When the birthday is not 29 February *)

Lemma valid_date_bounds (d : Date.t) :
  valid_date d ->
  (1 <= Date.year d <= 9999)%Z
  /\ (1 <= Date.month d <= 12)%Z
  /\ (1 <= Date.day d <= Date._days_in_month (Date.year d) (Date.month d))%Z.
Proof. intros H. now apply date_new_ok in H. Qed.

Lemma date_new_valid (year month day : Z) :
  (1 <= year <= 9999)%Z -> (1 <= month <= 12)%Z ->
  (1 <= day <= Date._days_in_month year month)%Z ->
  Date.new year month day = Ok (Date.Build year month day).
Proof.
  intros Hy Hm Hd. unfold Date.new, Date.MINYEAR, Date.MAXYEAR.
  repeat match goal with
         | |- context [(?a <=? ?b)%Z] =>
             destruct (Z.leb_spec a b); [| lia]
         end.
  reflexivity.
Qed.

Lemma ltb_spec (a b : Date.t) :
  Date.ltb a b = true
  <-> (Date.year a < Date.year b
       \/ (Date.year a = Date.year b
           /\ (Date.month a < Date.month b
               \/ (Date.month a = Date.month b
                   /\ Date.day a < Date.day b))))%Z.
Proof.
  unfold Date.ltb.
  destruct (Z.ltb_spec (Date.year a) (Date.year b)),
    (Z.eqb_spec (Date.year a) (Date.year b)),
    (Z.ltb_spec (Date.month a) (Date.month b)),
    (Z.eqb_spec (Date.month a) (Date.month b)),
    (Z.ltb_spec (Date.day a) (Date.day b));
    cbn [andb orb]; split; intros Hlt;
    first [reflexivity | discriminate Hlt | lia].
Qed.

Lemma ltb_false_spec (a b : Date.t) :
  Date.ltb a b = false
  <-> (Date.year b < Date.year a
       \/ (Date.year a = Date.year b
           /\ (Date.month b < Date.month a
               \/ (Date.month a = Date.month b
                   /\ Date.day b <= Date.day a))))%Z.
Proof.
  rewrite <- not_true_iff_false, ltb_spec. lia.
Qed.

Lemma is_leap_spec (year : Z) :
  Date._is_leap year = true
  <-> (year mod 4 = 0 /\ (year mod 100 <> 0 \/ year mod 400 = 0))%Z.
Proof.
  unfold Date._is_leap.
  rewrite andb_true_iff, orb_true_iff, negb_true_iff, !Z.eqb_eq, Z.eqb_neq.
  tauto.
Qed.

(** A year has 365 days, and one more when it is a leap year. *)
Lemma days_before_next_year (year : Z) :
  Date._days_before_year (year + 1)
  = (Date._days_before_year year + 365
     + (if Date._is_leap year then 1 else 0))%Z.
Proof.
  unfold Date._days_before_year.
  destruct (Date._is_leap year) eqn:Hleap.
  - apply is_leap_spec in Hleap.
    Z.div_mod_to_equations. lia.
  - apply not_true_iff_false in Hleap. rewrite is_leap_spec in Hleap.
    Z.div_mod_to_equations. lia.
Qed.

Lemma days_before_year_mono (y1 y2 : Z) :
  (y1 <= y2)%Z -> (Date._days_before_year y1 <= Date._days_before_year y2)%Z.
Proof.
  intros Hle. unfold Date._days_before_year.
  Z.div_mod_to_equations. lia.
Qed.

Lemma month_in_range (month : Z) : (1 <= month <= 12)%Z -> month_cases month.
Proof. unfold month_cases. lia. Qed.

Ltac each_month H :=
  unfold month_cases in H;
  repeat (destruct H as [-> | H]); [.. | subst].

(** The tables of the calendar at a month that is written out. *)
Ltac month_tables :=
  cbv [Date._days_in_month Date._days_before_month
       Date._DAYS_IN_MONTH Date._DAYS_BEFORE_MONTH
       nth Z.to_nat Pos.to_nat Pos.iter_op Nat.add
       Z.eqb Z.gtb Z.compare Pos.eqb Pos.compare Pos.compare_cont andb] in *.

Lemma day_of_year_bounds (d : Date.t) :
  valid_date d ->
  (1 <= day_of_year d
   <= 365 + (if Date._is_leap (Date.year d) then 1 else 0))%Z.
Proof.
  intros Hv. apply valid_date_bounds in Hv as (_ & Hm & Hd).
  destruct d as [y m d]. unfold day_of_year. cbn [Date.year Date.month Date.day] in *.
  apply month_in_range in Hm.
  each_month Hm; month_tables; destruct (Date._is_leap y); lia.
Qed.

Lemma day_of_year_mono (y m1 d1 m2 d2 : Z) :
  valid_date (Date.Build y m1 d1) -> valid_date (Date.Build y m2 d2) ->
  (m1 < m2)%Z ->
  (day_of_year (Date.Build y m1 d1) < day_of_year (Date.Build y m2 d2))%Z.
Proof.
  intros H1 H2 Hlt.
  apply valid_date_bounds in H1 as (_ & Hm1 & Hd1).
  apply valid_date_bounds in H2 as (_ & Hm2 & Hd2).
  unfold day_of_year. cbn [Date.year Date.month Date.day] in *.
  apply month_in_range in Hm1. apply month_in_range in Hm2.
  each_month Hm1; each_month Hm2; try lia;
    month_tables; destruct (Date._is_leap y); lia.
Qed.

Lemma toordinal_day_of_year (d : Date.t) :
  Date.toordinal d = (Date._days_before_year (Date.year d) + day_of_year d)%Z.
Proof. unfold Date.toordinal, Date._ymd2ord, day_of_year. lia. Qed.

(** [toordinal] grows with the date. *)
Lemma toordinal_lt (a b : Date.t) :
  valid_date a -> valid_date b ->
  Date.ltb a b = true -> (Date.toordinal a < Date.toordinal b)%Z.
Proof.
  intros Ha Hb Hlt. apply ltb_spec in Hlt.
  rewrite !toordinal_day_of_year.
  pose proof (day_of_year_bounds a Ha) as Hda.
  pose proof (day_of_year_bounds b Hb) as Hdb.
  destruct Hlt as [Hy | [Hy [Hm | [Hm Hd]]]].
  - pose proof (days_before_next_year (Date.year a)) as Hnext.
    pose proof (days_before_year_mono (Date.year a + 1) (Date.year b)) as Hmono.
    lia.
  - destruct a as [ya ma da], b as [yb mb db].
    cbn [Date.year Date.month Date.day] in *. subst yb.
    pose proof (day_of_year_mono ya ma da mb db Ha Hb Hm).
    unfold day_of_year in *. cbn [Date.year Date.month Date.day] in *. lia.
  - unfold day_of_year. rewrite Hy, Hm. lia.
Qed.

Lemma toordinal_le (a b : Date.t) :
  valid_date a -> valid_date b ->
  date_le a b -> (Date.toordinal a <= Date.toordinal b)%Z.
Proof.
  intros Ha Hb Hle. unfold date_le in Hle.
  destruct (Date.ltb a b) eqn:Hlt.
  - apply toordinal_lt in Hlt; [lia | assumption | assumption].
  - apply ltb_false_spec in Hle. apply ltb_false_spec in Hlt.
    assert (a = b) as ->; [| lia].
    destruct a, b. cbn [Date.year Date.month Date.day] in *.
    f_equal; lia.
Qed.

(** A month and day other than 29 February exist in every year. *)
Lemma same_day_in_year (b : Date.t) (year : Z) :
  valid_date b ->
  ~ (Date.month b = 2 /\ Date.day b = 29)%Z ->
  (1 <= year <= 9999)%Z ->
  Date.new year (Date.month b) (Date.day b)
  = Ok (Date.Build year (Date.month b) (Date.day b)).
Proof.
  intros Hb Hnot Hyear.
  apply valid_date_bounds in Hb as (_ & Hm & Hd).
  apply date_new_valid; try assumption.
  destruct b as [yb m d]. cbn [Date.year Date.month Date.day] in *.
  apply month_in_range in Hm.
  each_month Hm; month_tables;
    destruct (Date._is_leap yb); destruct (Date._is_leap year); lia.
Qed.

Lemma date_le_spec (a b : Date.t) :
  date_le a b
  <-> (Date.year a < Date.year b
       \/ (Date.year a = Date.year b
           /\ (Date.month a < Date.month b
               \/ (Date.month a = Date.month b
                   /\ Date.day a <= Date.day b))))%Z.
Proof. unfold date_le. rewrite ltb_false_spec. lia. Qed.

Lemma toordinal_inj (a b : Date.t) :
  valid_date a -> valid_date b ->
  Date.toordinal a = Date.toordinal b -> a = b.
Proof.
  intros Ha Hb Heq.
  destruct (Date.ltb a b) eqn:Hab.
  - apply toordinal_lt in Hab; [lia | assumption | assumption].
  - destruct (Date.ltb b a) eqn:Hba.
    + apply toordinal_lt in Hba; [lia | assumption | assumption].
    + apply ltb_false_spec in Hab. apply ltb_false_spec in Hba.
      destruct a, b. cbn [Date.year Date.month Date.day] in *.
      f_equal; lia.
Qed.

(** For a birthday that is not 29 February, and a day before the year
    9999, [days_to_birthday] returns the number of days from today to
    the first date on or after today that has the month and day of the
    birthday; the number is not negative, and it is 0 exactly on the
    birthday. *)
Theorem days_to_birthday_next_occurrence
    (date_today : Date.t) (r : ContactRecord.t) (b : Birthday.t) :
  ContactRecord.birthday r = Some b ->
  valid_date date_today ->
  valid_date (Birthday.value b) ->
  ~ (Date.month (Birthday.value b) = 2 /\ Date.day (Birthday.value b) = 29)%Z ->
  (Date.year date_today < 9999)%Z ->
  exists next days,
    ContactRecord.days_to_birthday date_today r = Ok days
    /\ days = (Date.toordinal next - Date.toordinal date_today)%Z
    /\ valid_date next
    /\ Date.month next = Date.month (Birthday.value b)
    /\ Date.day next = Date.day (Birthday.value b)
    /\ date_le date_today next
    /\ (forall other,
          Date.month other = Date.month (Birthday.value b) ->
          Date.day other = Date.day (Birthday.value b) ->
          date_le date_today other -> date_le next other)
    /\ (0 <= days)%Z
    /\ (days = 0%Z
        <-> Date.month date_today = Date.month (Birthday.value b)
            /\ Date.day date_today = Date.day (Birthday.value b)).
Proof.
  intros Hb Htoday Hvalid Hnot Hyear.
  pose proof (valid_date_bounds _ Htoday) as (Hty & _ & _).
  set (m := Date.month (Birthday.value b)) in *.
  set (d := Date.day (Birthday.value b)) in *.
  pose proof (same_day_in_year _ (Date.year date_today) Hvalid Hnot Hty)
    as Hthis.
  assert (Hty' : (1 <= Date.year date_today + 1 <= 9999)%Z) by lia.
  pose proof (same_day_in_year _ (Date.year date_today + 1) Hvalid Hnot Hty')
    as Hnext.
  fold m d in Hthis, Hnext.
  unfold ContactRecord.days_to_birthday. rewrite Hb. fold m d.
  rewrite Hthis. cbn [bind].
  destruct (Date.ltb (Date.Build (Date.year date_today) m d) date_today)
    eqn:Hpassed.
  - rewrite Hnext. cbn [bind].
    set (next := Date.Build (Date.year date_today + 1) m d).
    assert (Hvnext : valid_date next) by exact Hnext.
    assert (Hle : date_le date_today next).
    { apply date_le_spec. unfold next. cbn [Date.year]. lia. }
    assert (Hlt : Date.ltb date_today next = true).
    { apply ltb_spec. unfold next. cbn [Date.year]. lia. }
    apply toordinal_lt in Hlt; [| assumption | assumption].
    apply ltb_spec in Hpassed. cbn [Date.year Date.month Date.day] in Hpassed.
    exists next, (Date.sub_days next date_today).
    unfold Date.sub_days.
    repeat split; try assumption; try reflexivity; try lia.
    intros other Hom Hod Hother.
    apply date_le_spec in Hother. apply date_le_spec.
    unfold next. cbn [Date.year Date.month Date.day]. lia.
  - set (next := Date.Build (Date.year date_today) m d).
    assert (Hvnext : valid_date next) by exact Hthis.
    assert (Hle : date_le date_today next) by exact Hpassed.
    pose proof (toordinal_le _ _ Htoday Hvnext Hle) as Hord.
    apply ltb_false_spec in Hpassed.
    cbn [Date.year Date.month Date.day] in Hpassed.
    exists next, (Date.sub_days next date_today).
    unfold Date.sub_days.
    repeat split; try assumption; try reflexivity; try lia.
    + intros other Hom Hod Hother.
      apply date_le_spec in Hother. apply date_le_spec.
      unfold next. cbn [Date.year Date.month Date.day]. lia.
    + assert (Heq : next = date_today)
        by (apply toordinal_inj; [assumption | assumption | lia]).
      now rewrite <- Heq.
    + assert (Heq : next = date_today)
        by (apply toordinal_inj; [assumption | assumption | lia]).
      now rewrite <- Heq.
    + intros [Hm Hd]. replace next with date_today; [lia |].
      unfold next. destruct date_today as [ty tm td].
      cbn [Date.year Date.month Date.day] in *. now rewrite Hm, Hd.
Qed.

Lemma days_to_birthday_next_occurrence_witness :
  exists next days,
    ContactRecord.days_to_birthday (Date.Build 2099 12 31)
      (with_birthday (Date.Build 2000 1 1)) = Ok days
    /\ days = (Date.toordinal next - Date.toordinal (Date.Build 2099 12 31))%Z
    /\ valid_date next
    /\ Date.month next = 1%Z
    /\ Date.day next = 1%Z
    /\ date_le (Date.Build 2099 12 31) next
    /\ (forall other,
          Date.month other = 1%Z -> Date.day other = 1%Z ->
          date_le (Date.Build 2099 12 31) other -> date_le next other)
    /\ (0 <= days)%Z
    /\ (days = 0%Z <-> 12%Z = 1%Z /\ 31%Z = 1%Z).
Proof.
  apply (days_to_birthday_next_occurrence (Date.Build 2099 12 31)
           (with_birthday (Date.Build 2000 1 1))
           (Birthday.Build (Date.Build 2000 1 1))).
  - reflexivity.
  - reflexivity.
  - reflexivity.
  - simpl. lia.
  - simpl. lia.
Defined.

(** ** Lookup after the operations of the book *)

Lemma get_set_item_same (data : AddressBook.t) (key : string)
    (v : ContactRecord.t) :
  AddressBook.get (AddressBook.set_item data key v) key = Some v.
Proof.
  induction data as [| [k w] rest IH]; simpl.
  - now rewrite String.eqb_refl.
  - destruct (String.eqb k key) eqn:Hk; simpl; now rewrite Hk.
Qed.

Lemma get_set_item_other (data : AddressBook.t) (key k : string)
    (v : ContactRecord.t) :
  k <> key ->
  AddressBook.get (AddressBook.set_item data key v) k = AddressBook.get data k.
Proof.
  intros Hne. induction data as [| [k' w] rest IH]; simpl.
  - destruct (String.eqb_spec key k); [congruence | reflexivity].
  - destruct (String.eqb_spec k' key) as [-> | Hk]; simpl.
    + destruct (String.eqb_spec key k); [congruence | reflexivity].
    + now rewrite IH.
Qed.

Lemma get_pop_other (data : AddressBook.t) (key k : string) :
  k <> key ->
  AddressBook.get (AddressBook.pop data key) k = AddressBook.get data k.
Proof.
  intros Hne. induction data as [| [k' w] rest IH]; simpl; [reflexivity |].
  destruct (String.eqb_spec k' key) as [-> | Hk]; simpl.
  - destruct (String.eqb_spec key k); [congruence | reflexivity].
  - now rewrite IH.
Qed.

Lemma get_pop_same (data : AddressBook.t) (key : string) :
  AddressBook.wf data ->
  AddressBook.get (AddressBook.pop data key) key = None.
Proof.
  unfold AddressBook.wf.
  induction data as [| [k w] rest IH]; simpl; intros Hnd; [reflexivity |].
  inversion Hnd as [| ? ? Hnotin Hnd']; subst.
  destruct (String.eqb_spec k key) as [-> | Hk]; simpl.
  - now apply get_none_not_key.
  - destruct (String.eqb_spec k key); [congruence |]. now apply IH.
Qed.

Lemma set_item_get_same (data : AddressBook.t) (key : string)
    (v : ContactRecord.t) :
  AddressBook.get data key = Some v -> AddressBook.set_item data key v = data.
Proof.
  induction data as [| [k w] rest IH]; simpl; [discriminate |].
  destruct (String.eqb_spec k key) as [-> | Hk].
  - now intros [= ->].
  - intros Hget. now rewrite IH.
Qed.

Lemma pop_app_new (data : AddressBook.t) (key : string) (v : ContactRecord.t) :
  AddressBook.get data key = None ->
  AddressBook.pop (data ++ [(key, v)]) key = data.
Proof.
  induction data as [| [k w] rest IH]; simpl.
  - now rewrite String.eqb_refl.
  - destruct (String.eqb k key); [discriminate |].
    intros Hget. now rewrite IH.
Qed.

(** [add_record] of a record with a new name: the record is returned
    and found under its name, it is the last key of the book, and every
    other name is looked up as before. *)
Theorem add_record_then_get (data : AddressBook.t) (record : ContactRecord.t) :
  let key := Name.value (ContactRecord.name record) in
  AddressBook.get data key = None ->
  let data' := fst (AddressBook.add_record data record) in
  snd (AddressBook.add_record data record) = Some record
  /\ data' = data ++ [(key, record)]
  /\ AddressBook.get data' key = Some record
  /\ (forall k, k <> key -> AddressBook.get data' k = AddressBook.get data k).
Proof.
  intros key Hnew data'. subst data'.
  unfold AddressBook.add_record. fold key. rewrite Hnew. cbn [fst snd].
  repeat split.
  - now apply set_item_new.
  - apply get_set_item_same.
  - intros k Hk. now apply get_set_item_other.
Qed.

Lemma add_record_then_get_witness :
  let data' := fst (AddressBook.add_record [] alice) in
  snd (AddressBook.add_record [] alice) = Some alice
  /\ data' = [] ++ [("Alice", alice)]
  /\ AddressBook.get data' "Alice" = Some alice
  /\ (forall k, k <> "Alice" -> AddressBook.get data' k = AddressBook.get [] k).
Proof. apply (add_record_then_get [] alice). reflexivity. Defined.

(** [del_record] returns what [get] finds under the key; afterwards the
    key is gone, every other name is looked up as before, and a book
    without the key is left as it was. *)
Theorem del_record_then_get (data : AddressBook.t) (key : string) :
  AddressBook.wf data ->
  let data' := fst (AddressBook.del_record data key) in
  snd (AddressBook.del_record data key) = AddressBook.get data key
  /\ AddressBook.get data' key = None
  /\ (forall k, k <> key -> AddressBook.get data' k = AddressBook.get data k)
  /\ (AddressBook.get data key = None -> data' = data)
  /\ AddressBook.wf data'.
Proof.
  intros Hwf data'. subst data'. unfold AddressBook.del_record.
  destruct (AddressBook.get data key) as [rec |] eqn:Hget; cbn [fst snd].
  - repeat split.
    + now apply get_pop_same.
    + intros k Hk. now apply get_pop_other.
    + discriminate.
    + now apply wf_pop.
  - repeat split; assumption.
Qed.

Lemma del_record_then_get_witness :
  let data' := fst (AddressBook.del_record three_contacts "Bob") in
  snd (AddressBook.del_record three_contacts "Bob")
  = AddressBook.get three_contacts "Bob"
  /\ AddressBook.get data' "Bob" = None
  /\ (forall k, k <> "Bob" ->
        AddressBook.get data' k = AddressBook.get three_contacts k)
  /\ (AddressBook.get three_contacts "Bob" = None -> data' = three_contacts)
  /\ AddressBook.wf data'.
Proof.
  apply (del_record_then_get three_contacts "Bob").
  unfold AddressBook.wf. simpl.
  repeat constructor; simpl; intuition discriminate.
Defined.

(** Adding a record with a new name and deleting that name again gives
    back the book. *)
Theorem add_then_del_record (data : AddressBook.t) (record : ContactRecord.t) :
  let key := Name.value (ContactRecord.name record) in
  AddressBook.get data key = None ->
  AddressBook.del_record (fst (AddressBook.add_record data record)) key
  = (data, Some record).
Proof.
  intros key Hnew.
  assert (Hdata : fst (AddressBook.add_record data record)
                  = data ++ [(key, record)]).
  { unfold AddressBook.add_record. fold key. rewrite Hnew. cbn [fst].
    now apply set_item_new. }
  assert (Hget : AddressBook.get (fst (AddressBook.add_record data record)) key
                 = Some record).
  { unfold AddressBook.add_record. fold key. rewrite Hnew. cbn [fst].
    apply get_set_item_same. }
  unfold AddressBook.del_record. rewrite Hget, Hdata.
  now rewrite pop_app_new.
Qed.

Lemma add_then_del_record_witness :
  AddressBook.del_record (fst (AddressBook.add_record [] alice)) "Alice"
  = ([], Some alice).
Proof. apply (add_then_del_record [] alice). reflexivity. Defined.

(** ** Deleting and changing a phone *)

Lemma remove_first_none (value : string) (phones : list Phone.t) :
  ContactRecord.remove_first value phones = None
  <-> ~ In value (map Phone.value phones).
Proof.
  induction phones as [| p rest IH]; simpl; [tauto |].
  destruct (String.eqb_spec (Phone.value p) value) as [Heq | Hne].
  - split; [discriminate | intros H; exfalso; apply H; now left].
  - destruct (ContactRecord.remove_first value rest) as [[q rest'] |].
    + split; [discriminate |]. intros H. exfalso.
      assert (Hnin : ~ In value (map Phone.value rest)) by tauto.
      apply IH in Hnin. discriminate.
    + split; [| reflexivity]. intros _ [Heq | Hin]; [now apply Hne |].
      now apply (proj1 IH).
Qed.

(** The loop of [del_phone] takes out the first phone with the value
    and keeps the others in their order. *)
Lemma remove_first_some (value : string) (phones rest : list Phone.t)
    (p : Phone.t) :
  ContactRecord.remove_first value phones = Some (p, rest)
  <-> exists before after,
        phones = before ++ p :: after
        /\ rest = before ++ after
        /\ Phone.value p = value
        /\ ~ In value (map Phone.value before).
Proof.
  revert rest. induction phones as [| q tail IH]; intros rest; simpl.
  - split; [discriminate |].
    intros (before & after & Hnil & _). now destruct before.
  - destruct (String.eqb_spec (Phone.value q) value) as [Heq | Hne].
    + split.
      * intros [= -> ->]. exists [], rest. simpl. tauto.
      * intros (before & after & Hphones & -> & Hp & Hnot).
        destruct before as [| b before]; simpl in *.
        -- now injection Hphones as -> ->.
        -- injection Hphones as -> _. exfalso. apply Hnot. now left.
    + destruct (ContactRecord.remove_first value tail) as [[p' rest'] |].
      * split.
        -- intros [= -> <-].
           destruct (proj1 (IH rest') eq_refl)
             as (before & after & -> & -> & Hp & Hnot).
           exists (q :: before), after. simpl. repeat split; try assumption.
           intros [Hq | Hin]; [now apply Hne | now apply Hnot].
        -- intros (before & after & Hphones & -> & Hp & Hnot).
           destruct before as [| b before]; simpl in *.
           ++ injection Hphones as -> _. now destruct Hne.
           ++ injection Hphones as -> ->.
              assert (Hrec : Some (p', rest') = Some (p, before ++ after)).
              { apply IH. exists before, after. repeat split; try assumption.
                intros Hin. apply Hnot. now right. }
              now injection Hrec as -> ->.
      * split; [discriminate |].
        intros (before & after & Hphones & -> & Hp & Hnot).
        destruct before as [| b before]; simpl in *.
        -- injection Hphones as -> _. now destruct Hne.
        -- injection Hphones as -> ->.
           assert (Hrec : None = Some (p, before ++ after)); [| discriminate].
           apply IH. exists before, after. repeat split; try assumption.
           intros Hin. apply Hnot. now right.
Qed.

Lemma del_phone_spec (r : ContactRecord.t) (phone : Phone.t) :
  NoDup (phone_values r) ->
  let r' := fst (ContactRecord.del_phone r phone) in
  let removed := snd (ContactRecord.del_phone r phone) in
  (In (Phone.value phone) (phone_values r) ->
     (exists p, removed = Some p
                /\ In p (ContactRecord.phones r)
                /\ Phone.value p = Phone.value phone)
     /\ ~ In (Phone.value phone) (phone_values r')
     /\ S (List.length (ContactRecord.phones r'))
        = List.length (ContactRecord.phones r))
  /\ (~ In (Phone.value phone) (phone_values r) -> r' = r /\ removed = None)
  /\ (forall v, v <> Phone.value phone ->
        (In v (phone_values r') <-> In v (phone_values r)))
  /\ ContactRecord.name r' = ContactRecord.name r
  /\ ContactRecord.birthday r' = ContactRecord.birthday r
  /\ NoDup (phone_values r').
Proof.
  intros Hnd r' removed. subst r' removed.
  unfold ContactRecord.del_phone, phone_values in *.
  destruct (ContactRecord.remove_first (Phone.value phone)
              (ContactRecord.phones r)) as [[p rest] |] eqn:Hrm;
    cbn [fst snd ContactRecord.name ContactRecord.phones ContactRecord.birthday].
  - apply remove_first_some in Hrm
      as (before & after & Hphones & -> & Hp & Hnot).
    rewrite Hphones in *. rewrite map_app in Hnd. cbn [map] in Hnd.
    apply NoDup_remove in Hnd as [Hnd Hnotin].
    rewrite <- map_app in Hnd, Hnotin. rewrite Hp in Hnotin.
    assert (Hpresent : In (Phone.value phone)
                         (map Phone.value (before ++ p :: after))).
    { rewrite map_app. apply in_or_app. right. now left. }
    split; [| split; [| split; [| split; [| split]]]].
    + intros _. split; [| split].
      * exists p. split; [reflexivity | split; [| assumption]].
        apply in_or_app. right. now left.
      * assumption.
      * rewrite !length_app. simpl. lia.
    + intros Habsent. now destruct Habsent.
    + intros v Hv. rewrite !map_app. cbn [map]. rewrite !in_app_iff.
      simpl. split; [tauto |].
      intros [H | [H | H]]; [now left | congruence | now right].
    + reflexivity.
    + reflexivity.
    + assumption.
  - apply remove_first_none in Hrm.
    split; [| split; [| split; [| split; [| split]]]];
      try reflexivity; try assumption.
    + intros Hyes. now destruct Hrm.
    + intros _. now split.
Qed.

(** [del_phone] on a record whose phone values are pairwise different:
    a phone of the record is returned and its value is gone afterwards,
    one phone fewer, the other values kept; a phone that is not in the
    record leaves it as it is and returns [None].  Name and birthday
    stay, and the values stay pairwise different. *)
Theorem del_phone_removes_the_value (r : ContactRecord.t) (phone : Phone.t) :
  NoDup (phone_values r) ->
  let r' := fst (ContactRecord.del_phone r phone) in
  let removed := snd (ContactRecord.del_phone r phone) in
  (In (Phone.value phone) (phone_values r) ->
     (exists p, removed = Some p
                /\ In p (ContactRecord.phones r)
                /\ Phone.value p = Phone.value phone)
     /\ ~ In (Phone.value phone) (phone_values r')
     /\ S (List.length (ContactRecord.phones r'))
        = List.length (ContactRecord.phones r))
  /\ (~ In (Phone.value phone) (phone_values r) -> r' = r /\ removed = None)
  /\ (forall v, v <> Phone.value phone ->
        (In v (phone_values r') <-> In v (phone_values r)))
  /\ ContactRecord.name r' = ContactRecord.name r
  /\ ContactRecord.birthday r' = ContactRecord.birthday r
  /\ NoDup (phone_values r').
Proof. exact (del_phone_spec r phone). Qed.

Lemma del_phone_removes_the_value_witness :
  let phone := Phone.Build "1234567890" in
  let r' := fst (ContactRecord.del_phone alice phone) in
  let removed := snd (ContactRecord.del_phone alice phone) in
  (In (Phone.value phone) (phone_values alice) ->
     (exists p, removed = Some p
                /\ In p (ContactRecord.phones alice)
                /\ Phone.value p = Phone.value phone)
     /\ ~ In (Phone.value phone) (phone_values r')
     /\ S (List.length (ContactRecord.phones r'))
        = List.length (ContactRecord.phones alice))
  /\ (~ In (Phone.value phone) (phone_values alice) ->
      r' = alice /\ removed = None)
  /\ (forall v, v <> Phone.value phone ->
        (In v (phone_values r') <-> In v (phone_values alice)))
  /\ ContactRecord.name r' = ContactRecord.name alice
  /\ ContactRecord.birthday r' = ContactRecord.birthday alice
  /\ NoDup (phone_values r').
Proof.
  apply (del_phone_removes_the_value alice (Phone.Build "1234567890")).
  unfold phone_values. simpl. repeat constructor; simpl; tauto.
Defined.

(** [change_phone] on a record whose phone values are pairwise
    different.  When the old phone is not in the record nothing changes
    and [None] is returned.  When it is, the pair is returned, the new
    value is in the record afterwards, the old value is not (unless it
    is the new one), every other value is kept, and the values stay
    pairwise different; the record does not grow, and it shrinks by one
    when the new value was already there beside the old. *)
Theorem change_phone_replaces_the_value
    (r : ContactRecord.t) (phone new_phone : Phone.t) :
  NoDup (phone_values r) ->
  let r' := fst (ContactRecord.change_phone r phone new_phone) in
  let changed := snd (ContactRecord.change_phone r phone new_phone) in
  (~ In (Phone.value phone) (phone_values r) -> r' = r /\ changed = None)
  /\ (In (Phone.value phone) (phone_values r) ->
        changed = Some (phone, new_phone)
        /\ In (Phone.value new_phone) (phone_values r')
        /\ (Phone.value phone <> Phone.value new_phone ->
            ~ In (Phone.value phone) (phone_values r'))
        /\ (forall v, v <> Phone.value phone -> v <> Phone.value new_phone ->
              (In v (phone_values r') <-> In v (phone_values r)))
        /\ List.length (ContactRecord.phones r')
           = (if ContactRecord.has_value (Phone.value new_phone)
                   (ContactRecord.phones r)
              then if String.eqb (Phone.value phone) (Phone.value new_phone)
                   then List.length (ContactRecord.phones r)
                   else List.length (ContactRecord.phones r) - 1
              else List.length (ContactRecord.phones r)))
  /\ NoDup (phone_values r').
Proof.
  intros Hnd r' changed. subst r' changed.
  pose proof (del_phone_spec r phone Hnd)
    as (Hin & Hout & Hother & _ & _ & Hnd').
  cbv zeta in Hin, Hout, Hother, Hnd'.
  unfold ContactRecord.change_phone.
  destruct (ContactRecord.del_phone r phone) as [r1 [p |]] eqn:Hdel;
    cbn [fst snd] in *.
  - assert (Hpresent : In (Phone.value phone) (phone_values r)).
    { destruct (in_dec string_dec (Phone.value phone) (phone_values r))
        as [Hyes | Hno]; [assumption |].
      now destruct (Hout Hno). }
    destruct (Hin Hpresent) as (_ & Hgone & Hlen).
    pose proof (has_value_after_add r1 new_phone) as Hhas.
    apply has_value_in in Hhas. fold (phone_values (fst (ContactRecord.add_phone r1 new_phone))) in Hhas.
    pose proof (add_phone_keeps_nodup r1 new_phone Hnd') as Hnd''.
    assert (Hvalues : forall v,
               In v (phone_values (fst (ContactRecord.add_phone r1 new_phone)))
               <-> In v (phone_values r1) \/ v = Phone.value new_phone).
    { intros v. unfold ContactRecord.add_phone, phone_values.
      destruct (ContactRecord.has_value _ _) eqn:Hh; cbn [negb fst ContactRecord.phones].
      - apply has_value_in in Hh. split; [tauto |].
        intros [H | ->]; assumption.
      - rewrite map_app, in_app_iff. simpl. intuition. }
    split; [| split].
    + intros Hno. now destruct Hno.
    + intros _.
      split; [reflexivity | split; [assumption | split; [| split]]].
      * intros Hne Hv.
        apply Hvalues in Hv as [Hv | Hv]; [now apply Hgone | congruence].
      * intros v Hv1 Hv2. rewrite Hvalues. split.
        -- intros [Hv | Hv]; [now apply Hother | congruence].
        -- intros Hv. left. now apply Hother.
      * unfold ContactRecord.add_phone.
        destruct (ContactRecord.has_value (Phone.value new_phone)
                    (ContactRecord.phones r1)) eqn:Hh1;
          cbn [negb fst ContactRecord.phones].
        -- apply has_value_in in Hh1. fold (phone_values r1) in Hh1.
           assert (Hne : Phone.value new_phone <> Phone.value phone)
             by (intros Heq; rewrite Heq in Hh1; now apply Hgone).
           apply Hother in Hh1; [| assumption].
           apply has_value_in in Hh1. rewrite Hh1.
           destruct (String.eqb_spec (Phone.value phone)
                       (Phone.value new_phone));
             [congruence | lia].
        -- rewrite length_app. simpl.
           destruct (ContactRecord.has_value (Phone.value new_phone)
                       (ContactRecord.phones r)) eqn:Hh; [| lia].
           apply has_value_in in Hh. fold (phone_values r) in Hh.
           destruct (String.eqb_spec (Phone.value phone)
                       (Phone.value new_phone)) as [Heq | Hne]; [lia |].
           exfalso. apply not_true_iff_false in Hh1. apply Hh1.
           apply has_value_in. fold (phone_values r1).
           apply Hother; [congruence | assumption].
    + assumption.
  - assert (Habsent : ~ In (Phone.value phone) (phone_values r)).
    { intros Hyes. destruct (Hin Hyes) as ((p & Hp & _) & _). discriminate. }
    destruct (Hout Habsent) as [-> _].
    split; [| split].
    + intros _. now split.
    + intros Hyes. now destruct Habsent.
    + assumption.
Qed.

Lemma change_phone_replaces_the_value_witness :
  let phone := Phone.Build "1234567890" in
  let new_phone := Phone.Build "0987654321" in
  let r' := fst (ContactRecord.change_phone alice phone new_phone) in
  let changed := snd (ContactRecord.change_phone alice phone new_phone) in
  (~ In (Phone.value phone) (phone_values alice) ->
   r' = alice /\ changed = None)
  /\ (In (Phone.value phone) (phone_values alice) ->
        changed = Some (phone, new_phone)
        /\ In (Phone.value new_phone) (phone_values r')
        /\ (Phone.value phone <> Phone.value new_phone ->
            ~ In (Phone.value phone) (phone_values r'))
        /\ (forall v, v <> Phone.value phone -> v <> Phone.value new_phone ->
              (In v (phone_values r') <-> In v (phone_values alice)))
        /\ List.length (ContactRecord.phones r')
           = (if ContactRecord.has_value (Phone.value new_phone)
                   (ContactRecord.phones alice)
              then if String.eqb (Phone.value phone) (Phone.value new_phone)
                   then List.length (ContactRecord.phones alice)
                   else List.length (ContactRecord.phones alice) - 1
              else List.length (ContactRecord.phones alice)))
  /\ NoDup (phone_values r').
Proof.
  apply (change_phone_replaces_the_value alice (Phone.Build "1234567890")
           (Phone.Build "0987654321")).
  unfold phone_values. simpl. repeat constructor; simpl; tauto.
Defined.

(** ** Which strings are names *)

Lemma or_else_not_none (a b : option matched) :
  or_else a b <> None <-> a <> None \/ b <> None.
Proof.
  destruct a as [m |]; simpl.
  - split; [intros _; left; discriminate | intros _; discriminate].
  - split; [intros H; now right | intros [H | H]; [now destruct H | exact H]].
Qed.

(** [r{lo,hi}] for a character class [r]: some number of characters
    between [lo] and [hi], all in the class, and the match goes on
    behind them. *)
Lemma repeat_class_range (p : ascii -> bool) (hi lo pos : nat) (s : string)
    (g : groups) (k : cont) :
  lo <= hi ->
  (repeat_run (one_char p) lo hi pos s g k <> None
   <-> exists n,
         lo <= n <= hi /\ n <= String.length s
         /\ all_chars p (take n s) = true
         /\ k (pos + n) (drop n s) g <> None).
Proof.
  revert lo pos s. induction hi as [| hi IH]; intros lo pos s Hle.
  - assert (lo = 0) as -> by lia. cbn [repeat_run]. split.
    + intros Hk. exists 0. rewrite Nat.add_0_r. simpl.
      repeat split; try lia; assumption.
    + intros (n & Hn & _ & _ & Hk). assert (n = 0) as -> by lia.
      rewrite Nat.add_0_r in Hk. exact Hk.
  - cbn [repeat_run]. rewrite or_else_not_none. split.
    + intros [Hmore | Hstop].
      * destruct s as [| c s]; [now destruct Hmore |].
        rewrite one_char_cons in Hmore.
        destruct (p c) eqn:Hc; [| now destruct Hmore].
        apply IH in Hmore as (n & Hn & Hlen & Hall & Hk); [| lia].
        exists (S n). cbn [take drop all_chars String.length].
        rewrite Hc, Hall. replace (pos + S n) with (S pos + n) by lia.
        repeat split; try lia; assumption.
      * destruct lo; [| now destruct Hstop].
        exists 0. rewrite Nat.add_0_r. simpl.
        repeat split; try lia; assumption.
    + intros (n & Hn & Hlen & Hall & Hk).
      destruct n as [| n].
      * right. assert (lo = 0) as -> by lia.
        rewrite Nat.add_0_r in Hk. exact Hk.
      * left. destruct s as [| c s]; [simpl in Hlen; lia |].
        cbn [take drop all_chars String.length] in *.
        apply andb_true_iff in Hall as [Hc Hall].
        rewrite one_char_cons, Hc. apply IH; [lia |].
        exists n. replace (S pos + n) with (pos + S n) by lia.
        repeat split; try lia; assumption.
Qed.

Lemma in_class_alpha (c : ascii) :
  in_class [("a", "z"); ("A", "Z")]%char c = is_alpha c.
Proof.
  unfold in_class, is_alpha, is_upper, is_lower. simpl.
  rewrite orb_false_r. apply orb_comm.
Qed.

Lemma newline_not_alpha : is_alpha newline = false.
Proof. reflexivity. Qed.

Lemma take_length_le (n : nat) (s : string) :
  String.length (take n s) <= n.
Proof.
  revert s. induction n as [| n IH]; intros [| c s]; simpl; try lia.
  specialize (IH s). lia.
Qed.

Lemma name_pattern_match (s : string) :
  re_match name_pattern s <> None
  <-> exists n,
        1 <= n <= 20 /\ n <= String.length s
        /\ all_chars is_alpha (take n s) = true
        /\ (drop n s = EmptyString \/ drop n s = String newline EmptyString).
Proof.
  change (re_match name_pattern s)
    with (repeat_run (one_char (in_class [("a", "z"); ("A", "Z")]%char)) 1 20 0 s []
            (fun pos' s' g' => run Eol pos' s' g' (fun pos _ g => Some (pos, g)))).
  rewrite repeat_class_range by lia.
  split; intros (n & Hn & Hlen & Hall & Hend); exists n;
    rewrite (all_chars_ext _ _ _ in_class_alpha) in *;
    (split; [exact Hn | split; [exact Hlen | split; [exact Hall |]]]).
  - cbn [run] in Hend. revert Hend.
    destruct (drop n s) as [| c [| c' rest]]; intros Hend;
      [now left | | now destruct Hend].
    revert Hend. destruct (Ascii.eqb_spec c newline) as [-> | Hne];
      intros Hend; [now right | now destruct Hend].
  - cbn [run]. destruct Hend as [-> | ->]; [discriminate |].
    rewrite Ascii.eqb_refl. discriminate.
Qed.

(** [Name] accepts the strings of one to twenty letters, keeping them
    as they are, and also such a string followed by one newline; every
    other string raises [ValueError]. *)
Theorem name_new_accepts (s : string) :
  (Name.new s = Ok (Name.Build s)
   <-> letters_1_20 s
       \/ exists d, letters_1_20 d
                    /\ s = (d ++ String newline EmptyString)%string)
  /\ (Name.new s = Ok (Name.Build s)
      \/ Name.new s
         = Raise (ValueError
                    "Name must contain only letters and be 1-20 symbols long")).
Proof.
  pose proof (name_pattern_match s) as Hmatch.
  unfold Name.new. split.
  - destruct (re_match name_pattern s) as [m |].
    + split; [intros _ | reflexivity].
      destruct Hmatch as [(n & Hn & Hlen & Hall & Hrest) _]; [discriminate |].
      pose proof (length_take n s Hlen) as Htake.
      rewrite <- (take_drop n s).
      destruct Hrest as [-> | ->].
      * left. rewrite append_empty_r. split; [lia | assumption].
      * right. exists (take n s). split; [split; [lia | assumption] | reflexivity].
    + split; [discriminate |]. intros Hshape. exfalso.
      apply (proj2 Hmatch); [| reflexivity].
      destruct Hshape as [[Hlen Hall] | [d [[Hlen Hall] ->]]].
      * exists (String.length s). rewrite take_all.
        replace (drop (String.length s) s) with EmptyString
          by (rewrite <- (append_empty_r s) at 2; now rewrite drop_app).
        repeat split; try lia; try assumption. now left.
      * exists (String.length d). rewrite take_app, drop_app, length_append.
        simpl. repeat split; try lia; try assumption. now right.
  - destruct (re_match name_pattern s); [now left | now right].
Qed.

(** ** The arguments the parser cuts out *)

Lemma all_chars_app (p : ascii -> bool) (a b : string) :
  all_chars p (a ++ b)%string = all_chars p a && all_chars p b.
Proof.
  induction a as [| c a IH]; simpl; [reflexivity |].
  now rewrite IH, andb_assoc.
Qed.

Lemma all_chars_rev_string (p : ascii -> bool) (acc s : string) :
  all_chars p (rev_string acc s) = all_chars p acc && all_chars p s.
Proof.
  revert acc. induction s as [| c s IH]; intros acc; simpl.
  - now rewrite andb_true_r.
  - rewrite IH. simpl. destruct (p c), (all_chars p acc); reflexivity.
Qed.

Lemma rev_string_not_empty (acc s : string) :
  acc <> EmptyString -> rev_string acc s <> EmptyString.
Proof.
  revert acc. induction s as [| c s IH]; intros acc Hacc; simpl.
  - assumption.
  - apply IH. discriminate.
Qed.

Lemma flush_words (cur : string) (out : list string) :
  all_chars no_space cur = true ->
  Forall word out -> Forall word (flush cur out).
Proof.
  intros Hcur Hout. destruct cur as [| c cur]; cbn [flush]; [assumption |].
  constructor; [| assumption]. split.
  - cbn [rev_string]. apply rev_string_not_empty. discriminate.
  - rewrite all_chars_rev_string. exact Hcur.
Qed.

Lemma split_from_words (cur s : string) :
  all_chars no_space cur = true -> Forall word (split_from cur s).
Proof.
  revert cur. induction s as [| c s IH]; intros cur Hcur; simpl.
  - now apply flush_words.
  - destruct (is_space c) eqn:Hc.
    + apply flush_words; [assumption |]. now apply IH.
    + apply IH. simpl. unfold no_space at 1. now rewrite Hc.
Qed.

(** Every string that [split] returns is a word. *)
Lemma split_words (s : string) : Forall word (split s).
Proof. now apply split_from_words. Qed.

Lemma parse_aliases_some (key : command) (value : list string)
    (user_input : string) (c : command) (args : list string) :
  parse_aliases key value user_input = Some (c, args) ->
  c = key
  /\ exists i,
       In i value
       /\ startswith (lower user_input) (lower i) = true
       /\ args = split (strip (drop (String.length i) user_input)).
Proof.
  induction value as [| i value IH]; simpl; [discriminate |].
  destruct (startswith (lower user_input) (lower i)) eqn:Hstart.
  - intros [= <- <-]. split; [reflexivity |]. exists i. tauto.
  - intros Hrest. destruct (IH Hrest) as (-> & j & Hj & Hstart' & ->).
    split; [reflexivity |]. exists j. tauto.
Qed.

Lemma parse_commands_some (table : list (command * list string))
    (user_input : string) (c : command) (args : list string) :
  parse_commands table user_input = Some (c, args) ->
  exists value i,
    In (c, value) table /\ In i value
    /\ startswith (lower user_input) (lower i) = true
    /\ args = split (strip (drop (String.length i) user_input)).
Proof.
  induction table as [| [key value] table IH]; simpl; [discriminate |].
  destruct (parse_aliases key value user_input) as [[c' args'] |] eqn:Hkey.
  - intros [= -> ->].
    apply parse_aliases_some in Hkey as (-> & i & Hi & Hstart & ->).
    exists value, i. tauto.
  - intros Hrest. destruct (IH Hrest) as (value' & i & Hin & Hi & Hstart & ->).
    exists value', i. tauto.
Qed.

(** What [command_parser] returns for a line: the command of an alias
    the line starts with, letter case apart, and as arguments the words
    of the line behind that alias: none is empty, none has white space
    in it. *)
Theorem command_parser_gives_words
    (user_input : string) (c : command) (args : list string) :
  command_parser user_input = Some (c, args) ->
  (exists value i,
     In (c, value) all_commands /\ In i value
     /\ startswith (lower user_input) (lower i) = true
     /\ args = split (strip (drop (String.length i) user_input)))
  /\ Forall word args.
Proof.
  intros Hparse. apply parse_commands_some in Hparse as Hfound.
  split; [exact Hfound |].
  destruct Hfound as (value & i & _ & _ & _ & ->). apply split_words.
Qed.

Lemma command_parser_gives_words_witness :
  (exists value i,
     In (CmdAddContact, value) all_commands /\ In i value
     /\ startswith (lower "ADD Alice  1234567890") (lower i) = true
     /\ ["Alice"; "1234567890"]
        = split (strip (drop (String.length i) "ADD Alice  1234567890")))
  /\ Forall word ["Alice"; "1234567890"].
Proof.
  apply (command_parser_gives_words "ADD Alice  1234567890" CmdAddContact
           ["Alice"; "1234567890"]).
  reflexivity.
Defined.

Lemma newline_is_space : no_space newline = false.
Proof. reflexivity. Qed.

(** A phone typed on the command line cannot carry the newline that
    [Phone] lets through, nor can a name: a word that [Phone] accepts
    is exactly ten digits, and a word that [Name] accepts is one to
    twenty letters. *)
Theorem words_accepted_are_exact (a : string) :
  word a ->
  (forall p, Phone.new a = Ok p -> ten_digits a /\ p = Phone.Build a)
  /\ (forall n, Name.new a = Ok n -> letters_1_20 a /\ n = Name.Build a).
Proof.
  intros [_ Hword]. split.
  - intros p Hnew. unfold Phone.new in Hnew.
    destruct (re_match phone_pattern a) eqn:Hmatch; [| discriminate].
    injection Hnew as <-. split; [| reflexivity].
    assert (Hsome : re_match phone_pattern a <> None) by congruence.
    apply phone_pattern_match in Hsome as [Hten Hrest].
    rewrite <- (take_drop 10 a) in Hword |- *.
    destruct Hrest as [Hrest | Hrest]; rewrite Hrest in Hword |- *.
    + now rewrite append_empty_r.
    + rewrite all_chars_app in Hword.
      change (all_chars no_space (String newline "")) with false in Hword.
      rewrite andb_false_r in Hword. discriminate.
  - intros n Hnew. unfold Name.new in Hnew.
    destruct (re_match name_pattern a) eqn:Hmatch; [| discriminate].
    injection Hnew as <-. split; [| reflexivity].
    assert (Hsome : re_match name_pattern a <> None) by congruence.
    apply name_pattern_match in Hsome as (k & Hk & Hlen & Hall & Hrest).
    pose proof (length_take k a Hlen) as Htake.
    rewrite <- (take_drop k a) in Hword |- *.
    destruct Hrest as [Hrest | Hrest]; rewrite Hrest in Hword |- *.
    + rewrite append_empty_r. split; [lia | assumption].
    + rewrite all_chars_app in Hword.
      change (all_chars no_space (String newline "")) with false in Hword.
      rewrite andb_false_r in Hword. discriminate.
Qed.

Lemma words_accepted_are_exact_witness :
  (forall p, Phone.new "1234567890" = Ok p ->
             ten_digits "1234567890" /\ p = Phone.Build "1234567890")
  /\ (forall n, Name.new "1234567890" = Ok n ->
                letters_1_20 "1234567890" /\ n = Name.Build "1234567890").
Proof.
  apply (words_accepted_are_exact "1234567890").
  split; [discriminate | reflexivity].
Defined.

(** ** A contact from the command that adds it to the one that removes it *)

Lemma phone_new_value (phone : string) (p : Phone.t) :
  Phone.new phone = Ok p -> p = Phone.Build phone.
Proof.
  unfold Phone.new. destruct (re_match _ _); [| discriminate].
  now intros [= <-].
Qed.

Lemma set_item_twice (data : AddressBook.t) (key : string)
    (v w : ContactRecord.t) :
  AddressBook.set_item (AddressBook.set_item data key v) key w
  = AddressBook.set_item data key w.
Proof.
  induction data as [| [k u] rest IH]; simpl.
  - now rewrite String.eqb_refl.
  - destruct (String.eqb k key) eqn:Hk; simpl; rewrite Hk; [reflexivity |].
    now rewrite IH.
Qed.

Lemma get_app_new (data : AddressBook.t) (key : string) (v : ContactRecord.t) :
  AddressBook.get data key = None ->
  AddressBook.get (data ++ [(key, v)]) key = Some v.
Proof.
  intros Hnew. rewrite <- (set_item_new data key v Hnew).
  apply get_set_item_same.
Qed.

(** With a valid name that is not in the book and a valid phone,
    [add_contact] appends the contact and reports it; [print_phone]
    then returns that contact, printed as its phone; [del_contact]
    gives back the book as it was before; after that [print_phone]
    answers that the contact does not exist. *)
Theorem contact_round_trip
    (notebook : AddressBook.t) (name phone : string) (n : Name.t) (p : Phone.t) :
  Name.new name = Ok n ->
  Phone.new phone = Ok p ->
  AddressBook.get notebook name = None ->
  let rec := ContactRecord.new n [p] in
  let added := notebook ++ [(name, rec)] in
  add_contact notebook [name; phone]
  = (added, Ok (Str ("Contact " ++ name ++ " has added successfully.")))
  /\ print_phone added [name] = (added, Ok (Rec rec))
  /\ print (Rec rec) = phone
  /\ del_contact added [name]
     = (notebook, Ok (Str ("Contact " ++ name ++ " has deleted successfully.")))
  /\ print_phone notebook [name] = (notebook, Ok (Str missing_message)).
Proof.
  intros Hname Hphone Hnew rec added.
  assert (Hkey : Name.value n = name) by now apply name_new_value.
  apply phone_new_value in Hphone as Hp.
  assert (Hget : AddressBook.get added name = Some rec)
    by now apply get_app_new.
  split; [| split; [| split; [| split]]].
  - unfold add_contact, input_error, add_contact_body. simpl.
    rewrite Hname. simpl. rewrite Hphone. simpl.
    unfold AddressBook.add_record. simpl. rewrite Hkey, Hnew.
    rewrite set_item_new by assumption.
    unfold added_message. simpl. now rewrite Hkey.
  - unfold print_phone, input_error, print_phone_body, AddressBook.getitem.
    simpl. now rewrite Hget.
  - subst rec p. reflexivity.
  - unfold del_contact, input_error, del_contact_body, AddressBook.del_record.
    simpl. rewrite Hget. unfold added. rewrite pop_app_new by assumption.
    simpl. now rewrite Hkey.
  - unfold print_phone, input_error, print_phone_body, AddressBook.getitem.
    simpl. now rewrite Hnew.
Qed.

Lemma contact_round_trip_witness :
  let added := [] ++ [("Alice", alice)] in
  add_contact [] ["Alice"; "1234567890"]
  = (added, Ok (Str "Contact Alice has added successfully."))
  /\ print_phone added ["Alice"] = (added, Ok (Rec alice))
  /\ print (Rec alice) = "1234567890"
  /\ del_contact added ["Alice"]
     = ([], Ok (Str "Contact Alice has deleted successfully."))
  /\ print_phone [] ["Alice"] = ([], Ok (Str missing_message)).
Proof.
  apply (contact_round_trip [] "Alice" "1234567890"
           (Name.Build "Alice") (Phone.Build "1234567890"));
    reflexivity.
Defined.

(** With a third argument that is a date, the contact in the book has
    the birthday, although the birthday is set after the record went
    into the book; the contact is printed with it, and asking for the
    days to the birthday answers with the number that
    [days_to_birthday] gives. *)
Theorem add_contact_with_birthday
    (date_today : Date.t) (notebook : AddressBook.t)
    (name phone third : string) (rest : list string)
    (n : Name.t) (p : Phone.t) (b : Birthday.t) (days : Z) :
  Name.new name = Ok n ->
  Phone.new phone = Ok p ->
  Birthday.new third = Ok b ->
  AddressBook.get notebook name = None ->
  let rec := ContactRecord.Build n [p] (Some b) in
  let added := notebook ++ [(name, rec)] in
  ContactRecord.days_to_birthday date_today rec = Ok days ->
  add_contact notebook (name :: phone :: third :: rest)
  = (added, Ok (Str ("Contact " ++ name ++ " has added successfully.")))
  /\ AddressBook.get added name = Some rec
  /\ print (Rec rec)
     = (phone ++ " Birthday: " ++ Date.isoformat (Birthday.value b))%string
  /\ days_to_births date_today added [name]
     = (added,
        Ok (Str (title name ++ " has " ++ str_of_int days
                 ++ " days to birthday."))).
Proof.
  intros Hname Hphone Hbirthday Hnew rec added Hdays.
  assert (Hkey : Name.value n = name) by now apply name_new_value.
  apply phone_new_value in Hphone as Hp.
  assert (Hget : AddressBook.get added name = Some rec)
    by now apply get_app_new.
  split; [| split; [assumption | split]].
  - unfold add_contact, input_error, add_contact_body. simpl.
    rewrite Hname. simpl. rewrite Hphone. simpl.
    unfold AddressBook.add_record. simpl. rewrite Hkey, Hnew, Hbirthday.
    rewrite set_item_twice, set_item_new by assumption.
    unfold added_message. simpl. now rewrite Hkey.
  - subst rec p. reflexivity.
  - unfold days_to_births, input_error, days_to_births_body. simpl.
    rewrite Hget, Hdays. simpl. subst rec. simpl. now rewrite Hkey.
Qed.

Lemma add_contact_with_birthday_witness :
  let rec := ContactRecord.Build (Name.Build "Alice")
               [Phone.Build "1234567890"]
               (Some (Birthday.Build (Date.Build 2000 1 1))) in
  let added := [] ++ [("Alice", rec)] in
  add_contact [] ["Alice"; "1234567890"; "01.01.2000"]
  = (added, Ok (Str "Contact Alice has added successfully."))
  /\ AddressBook.get added "Alice" = Some rec
  /\ print (Rec rec)
     = ("1234567890" ++ " Birthday: "
        ++ Date.isoformat (Date.Build 2000 1 1))%string
  /\ days_to_births (Date.Build 2099 12 31) added ["Alice"]
     = (added,
        Ok (Str (title "Alice" ++ " has " ++ str_of_int 1
                 ++ " days to birthday."))).
Proof.
  apply (add_contact_with_birthday (Date.Build 2099 12 31) []
           "Alice" "1234567890" "01.01.2000" []
           (Name.Build "Alice") (Phone.Build "1234567890")
           (Birthday.Build (Date.Build 2000 1 1)) 1%Z);
    reflexivity.
Defined.

(** ** What the handlers raise and how the loop ends *)

Lemma index_raises (args : list string) (i : nat) (e : exn) :
  index args i = Raise e -> caught e.
Proof.
  unfold index. destruct (nth_error args i); [discriminate |].
  intros [= <-]. now left.
Qed.

Lemma name_new_raises (name : string) (e : exn) :
  Name.new name = Raise e -> caught e.
Proof.
  unfold Name.new. destruct (re_match _ _); [discriminate |].
  intros [= <-]. right. right. eauto.
Qed.

Lemma phone_new_raises (phone : string) (e : exn) :
  Phone.new phone = Raise e -> caught e.
Proof.
  unfold Phone.new. destruct (re_match _ _); [discriminate |].
  intros [= <-]. right. right. eauto.
Qed.

Lemma birthday_new_caught (value : string) (e : exn) :
  Birthday.new value = Raise e -> caught e.
Proof.
  intros H. apply birthday_new_raises in H as ->. right. right. eauto.
Qed.

Lemma getitem_raises (data : AddressBook.t) (key : string) (e : exn) :
  AddressBook.getitem data key = Raise e -> caught e.
Proof.
  unfold AddressBook.getitem. destruct (AddressBook.get data key);
    [discriminate |].
  intros [= <-]. right. now left.
Qed.

Lemma bind_raises {A B : Type} (r : result A) (f : A -> result B) (e : exn) :
  bind r f = Raise e ->
  r = Raise e \/ exists a, r = Ok a /\ f a = Raise e.
Proof.
  destruct r as [a | e']; simpl; intros H.
  - right. exists a. split; [reflexivity | exact H].
  - left. now injection H as ->.
Qed.

(** [input_error] lets no exception through that it has a message for. *)
Lemma input_error_caught (func : handler) (notebook notebook' : AddressBook.t)
    (args : list string) (e : exn) :
  input_error func notebook args = (notebook', Raise e) -> ~ caught e.
Proof.
  unfold input_error.
  destruct (func notebook args) as [nb [v | e']]; [discriminate |].
  destruct e'; intros [= <- <-] [H | [H | [? H]]]; discriminate.
Qed.

Ltac raised H :=
  repeat (apply bind_raises in H; destruct H as [H | (? & ? & H)]);
  first [ now apply index_raises in H
        | now apply name_new_raises in H
        | now apply phone_new_raises in H
        | now apply birthday_new_caught in H
        | now apply getitem_raises in H
        | discriminate H ].

Lemma days_to_birthday_raises (date_today : Date.t) (r : ContactRecord.t)
    (e : exn) :
  ContactRecord.days_to_birthday date_today r = Raise e ->
  (ContactRecord.birthday r = None /\ e = none_has_no_value) \/ caught e.
Proof.
  unfold ContactRecord.days_to_birthday.
  destruct (ContactRecord.birthday r) as [b |].
  - intros H. right.
    apply bind_raises in H as [H | (d & _ & H)].
    + apply date_new_raises in H as [msg ->]. right. right. eauto.
    + apply bind_raises in H as [H | (d' & _ & H)]; [| discriminate].
      destruct (Date.ltb d date_today); [| discriminate].
      apply date_new_raises in H as [msg ->]. right. right. eauto.
  - intros [= <-]. now left.
Qed.

Lemma call_raises
    (date_today : Date.t) (c : command) (notebook notebook' : AddressBook.t)
    (args : list string) (e : exn) :
  call date_today c notebook args = (notebook', Raise e) ->
  c = CmdDaysToBirths
  /\ e = none_has_no_value
  /\ notebook' = notebook
  /\ exists name rest rec,
       args = name :: rest
       /\ AddressBook.get notebook name = Some rec
       /\ ContactRecord.birthday rec = None.
Proof.
  intros Hcall.
  assert (Hnot : ~ caught e).
  { destruct c; cbn [call] in Hcall;
      try (now apply input_error_caught in Hcall);
      unfold greeting, to_exit, show_all in Hcall; discriminate. }
  destruct c; cbn [call] in Hcall;
    try (unfold greeting, to_exit, show_all in Hcall; discriminate);
    unfold add_contact, change_number, del_number, print_phone, del_contact,
      days_to_births, input_error in Hcall.
  - (* add_contact *)
    exfalso. apply Hnot. unfold add_contact_body in Hcall.
    destruct (bind (index args 0) _) as [rec | e0] eqn:Hrec.
    + destruct (AddressBook.add_record notebook rec) as [nb1 stored].
      destruct (bind (index args 2) _) as [b | e2] eqn:Hb.
      * discriminate.
      * assert (He2 : caught e2) by raised Hb.
        destruct e2; try discriminate;
          injection Hcall as _ <-; assumption.
    + assert (He0 : caught e0) by raised Hrec.
      destruct e0; try discriminate; injection Hcall as _ <-; assumption.
  - (* change_number *)
    exfalso. apply Hnot. unfold change_number_body in Hcall.
    destruct (index args 0) as [a0 | e0] eqn:H0.
    + destruct (AddressBook.get notebook a0); [| discriminate].
      destruct (bind (index args 1) _) as [[ph nph] | e1] eqn:H1;
        [discriminate |].
      assert (He1 : caught e1) by raised H1.
      destruct e1; try discriminate; injection Hcall as _ <-; assumption.
    + assert (He0 : caught e0) by now apply index_raises in H0.
      destruct e0; try discriminate; injection Hcall as _ <-; assumption.
  - (* print_phone *)
    exfalso. apply Hnot. unfold print_phone_body in Hcall.
    destruct (bind (index args 0) _) as [v | e0] eqn:H0; [discriminate |].
    assert (He0 : caught e0) by raised H0.
    destruct e0; try discriminate; injection Hcall as _ <-; assumption.
  - (* del_number *)
    exfalso. apply Hnot. unfold del_number_body in Hcall.
    destruct (index args 0) as [a0 | e0] eqn:H0.
    + destruct (AddressBook.get notebook a0); [| discriminate].
      destruct (bind (index args 1) _) as [ph | e1] eqn:H1; [discriminate |].
      assert (He1 : caught e1) by raised H1.
      destruct e1; try discriminate; injection Hcall as _ <-; assumption.
    + assert (He0 : caught e0) by now apply index_raises in H0.
      destruct e0; try discriminate; injection Hcall as _ <-; assumption.
  - (* del_contact *)
    exfalso. apply Hnot. unfold del_contact_body in Hcall.
    destruct (index args 0) as [a0 | e0] eqn:H0.
    + destruct (AddressBook.del_record notebook a0) as [nb [rec |]];
        discriminate.
    + assert (He0 : caught e0) by now apply index_raises in H0.
      destruct e0; try discriminate; injection Hcall as _ <-; assumption.
  - (* days_to_births *)
    unfold days_to_births_body in Hcall.
    destruct args as [| name rest].
    + discriminate.
    + cbn [index nth_error bind] in Hcall.
      destruct (AddressBook.get notebook name) as [rec |] eqn:Hget;
        [| discriminate].
      destruct (ContactRecord.days_to_birthday date_today rec) as [d | e0]
        eqn:Hdays; [discriminate |].
      cbn [bind] in Hcall.
      apply days_to_birthday_raises in Hdays as [[Hnone ->] | Hcaught].
      * injection Hcall as <- <-.
        repeat split. exists name, rest, rec. tauto.
      * exfalso. apply Hnot.
        destruct e0; try discriminate; injection Hcall as _ <-; assumption.
Qed.

(** The handlers raise nothing but the [AttributeError] of
    [days_to_births] on a contact without a birthday; the book is then
    as it was. *)
Theorem handlers_raise_only_for_missing_birthday
    (date_today : Date.t) (c : command) (notebook notebook' : AddressBook.t)
    (args : list string) (e : exn) :
  call date_today c notebook args = (notebook', Raise e) ->
  c = CmdDaysToBirths
  /\ e = none_has_no_value
  /\ notebook' = notebook
  /\ exists name rest rec,
       args = name :: rest
       /\ AddressBook.get notebook name = Some rec
       /\ ContactRecord.birthday rec = None.
Proof. apply call_raises. Qed.

Lemma handlers_raise_only_for_missing_birthday_witness :
  CmdDaysToBirths = CmdDaysToBirths
  /\ none_has_no_value = none_has_no_value
  /\ [("Alice", alice)] = [("Alice", alice)]
  /\ exists name rest rec,
       ["Alice"] = name :: rest
       /\ AddressBook.get [("Alice", alice)] name = Some rec
       /\ ContactRecord.birthday rec = None.
Proof.
  apply (handlers_raise_only_for_missing_birthday (Date.Build 2026 11 4)
           CmdDaysToBirths [("Alice", alice)] [("Alice", alice)] ["Alice"]
           none_has_no_value).
  reflexivity.
Defined.

Lemma main_ends (date_today : Date.t) (inputs : list string)
    (notebook notebook' : AddressBook.t) (printed : list string)
    (how : outcome) :
  main date_today inputs notebook = (notebook', printed, how) ->
  expected_end how
  /\ (how = Exited -> exists before, printed = before ++ ["Good bye"])
  /\ List.length printed <= List.length inputs.
Proof.
  revert notebook notebook' printed how.
  induction inputs as [| user_input inputs IH];
    intros notebook notebook' printed how; cbn [main].
  - intros [= <- <- <-]. unfold expected_end. simpl.
    split; [tauto | split; [discriminate | lia]].
  - destruct (command_parser user_input) as [[c args] |].
    + destruct (call date_today c notebook args) as [nb1 [v | e]] eqn:Hcall.
      * destruct (is_to_exit c) eqn:Hexit.
        -- intros [= <- <- <-]. unfold expected_end.
           split; [tauto | split; [| simpl; lia]].
           intros _. exists []. destruct c; try discriminate.
           cbn [call] in Hcall. unfold to_exit in Hcall.
           now injection Hcall as _ <-.
        -- destruct (main date_today inputs nb1) as [[nb2 out] how'] eqn:Hrest.
           intros [= <- <- <-].
           destruct (IH _ _ _ _ Hrest) as (Hend & Hbye & Hlen).
           split; [assumption | split; [| simpl; lia]].
           intros Hexited. destruct (Hbye Hexited) as [before ->].
           now exists (print v :: before).
      * intros [= <- <- <-].
        apply call_raises in Hcall as (_ & -> & _).
        unfold expected_end. split; [tauto | split; [discriminate | simpl; lia]].
    + intros [= <- <- <-]. unfold expected_end.
      split; [tauto | split; [discriminate | simpl; lia]].
Qed.

(** [main] ends in one of four ways: by an exit command, when the
    input is used up, on a line that is no command, or on the days
    command for a contact without a birthday.  When it ends by an exit
    command the last line printed is the farewell.  It prints at most
    one text for each line read. *)
Theorem main_ends_as_expected (date_today : Date.t) (inputs : list string)
    (notebook : AddressBook.t) :
  let '(_, printed, how) := main date_today inputs notebook in
  expected_end how
  /\ (how = Exited -> exists before, printed = before ++ ["Good bye"])
  /\ List.length printed <= List.length inputs.
Proof.
  destruct (main date_today inputs notebook) as [[nb printed] how] eqn:Hmain.
  now apply main_ends in Hmain.
Qed.

(** ** What the book holds after any commands *)

Lemma get_in (data : AddressBook.t) (key : string) (v : ContactRecord.t) :
  AddressBook.get data key = Some v -> In (key, v) data.
Proof.
  induction data as [| [k w] rest IH]; simpl; [discriminate |].
  destruct (String.eqb_spec k key) as [-> | Hne].
  - intros [= ->]. now left.
  - intros H. right. now apply IH.
Qed.

Lemma keys_set_item_present (data : AddressBook.t) (key : string)
    (v w : ContactRecord.t) :
  AddressBook.get data key = Some w ->
  AddressBook.keys (AddressBook.set_item data key v) = AddressBook.keys data.
Proof.
  induction data as [| [k u] rest IH]; simpl; [discriminate |].
  destruct (String.eqb_spec k key) as [-> | Hne]; simpl; [reflexivity |].
  intros H. now rewrite IH.
Qed.

Lemma wf_set_item (data : AddressBook.t) (key : string) (v : ContactRecord.t) :
  AddressBook.wf data -> AddressBook.wf (AddressBook.set_item data key v).
Proof.
  intros Hwf. unfold AddressBook.wf.
  destruct (AddressBook.get data key) as [w |] eqn:Hget.
  - now rewrite (keys_set_item_present data key v w Hget).
  - rewrite keys_set_item_new by assumption.
    apply NoDup_app; [assumption | repeat constructor; simpl; tauto |].
    intros k Hin [<- | []]. now apply get_none_not_key in Hget.
Qed.

Lemma Forall_set_item (P : string * ContactRecord.t -> Prop)
    (data : AddressBook.t) (key : string) (v : ContactRecord.t) :
  Forall P data -> P (key, v) -> Forall P (AddressBook.set_item data key v).
Proof.
  intros Hall Hv. induction data as [| [k w] rest IH]; simpl.
  - now constructor.
  - inversion Hall as [| ? ? Hw Hrest]; subst.
    destruct (String.eqb_spec k key) as [-> | Hne];
      constructor; auto.
Qed.

Lemma Forall_pop (P : string * ContactRecord.t -> Prop)
    (data : AddressBook.t) (key : string) :
  Forall P data -> Forall P (AddressBook.pop data key).
Proof.
  intros Hall. induction data as [| [k w] rest IH]; simpl; [constructor |].
  inversion Hall as [| ? ? Hw Hrest]; subst.
  destruct (String.eqb k key); [assumption |]. constructor; auto.
Qed.

Lemma book_ok_set_item (notebook : AddressBook.t) (key : string)
    (r : ContactRecord.t) :
  book_ok notebook -> record_ok key r ->
  book_ok (AddressBook.set_item notebook key r).
Proof.
  intros [Hwf Hall] Hr. split.
  - now apply wf_set_item.
  - now apply Forall_set_item.
Qed.

Lemma book_ok_get (notebook : AddressBook.t) (key : string)
    (r : ContactRecord.t) :
  book_ok notebook -> AddressBook.get notebook key = Some r -> record_ok key r.
Proof.
  intros [_ Hall] Hget. apply get_in in Hget.
  rewrite Forall_forall in Hall. exact (Hall _ Hget).
Qed.

Lemma phone_new_again (a : string) (p : Phone.t) :
  Phone.new a = Ok p -> Phone.new (Phone.value p) = Ok p.
Proof.
  intros H. apply phone_new_value in H as Hp. subst p. exact H.
Qed.

Lemma del_phone_keeps (r : ContactRecord.t) (phone : Phone.t) (key : string) :
  record_ok key r -> record_ok key (fst (ContactRecord.del_phone r phone)).
Proof.
  intros (Hname & Hphones & Hnd). unfold ContactRecord.del_phone.
  destruct (ContactRecord.remove_first _ _) as [[p rest] |] eqn:Hrm;
    cbn [fst]; [| now repeat split].
  apply remove_first_some in Hrm as (before & after & Hr & -> & _ & _).
  unfold record_ok, phone_values in *.
  cbn [ContactRecord.name ContactRecord.phones]. rewrite Hr in *.
  split; [assumption | split].
  - apply Forall_app in Hphones as [Hb Ha].
    apply Forall_app. split; [assumption |]. now inversion Ha.
  - rewrite map_app in *. cbn [map] in Hnd. now apply NoDup_remove_1 in Hnd.
Qed.

Lemma add_phone_keeps (r : ContactRecord.t) (phone : Phone.t) (key : string) :
  record_ok key r -> Phone.new (Phone.value phone) = Ok phone ->
  record_ok key (fst (ContactRecord.add_phone r phone)).
Proof.
  intros (Hname & Hphones & Hnd) Hphone.
  split; [| split].
  - unfold ContactRecord.add_phone. now destruct (negb _).
  - unfold ContactRecord.add_phone. destruct (negb _); cbn [fst]; [| assumption].
    cbn [ContactRecord.phones]. apply Forall_app. split; [assumption |].
    now constructor.
  - now apply add_phone_keeps_nodup.
Qed.

Lemma change_phone_keeps (r : ContactRecord.t) (phone new_phone : Phone.t)
    (key : string) :
  record_ok key r -> Phone.new (Phone.value new_phone) = Ok new_phone ->
  record_ok key (fst (ContactRecord.change_phone r phone new_phone)).
Proof.
  intros Hr Hnew. unfold ContactRecord.change_phone.
  pose proof (del_phone_keeps r phone key Hr) as Hdel.
  destruct (ContactRecord.del_phone r phone) as [r1 [p |]]; cbn [fst] in *.
  - now apply add_phone_keeps.
  - assumption.
Qed.

Lemma fst_input_error (func : handler) (notebook : AddressBook.t)
    (args : list string) :
  fst (input_error func notebook args) = fst (func notebook args).
Proof. unfold input_error. now destruct (func notebook args). Qed.

Lemma book_ok_call (date_today : Date.t) (c : command)
    (notebook : AddressBook.t) (args : list string) :
  book_ok notebook -> book_ok (fst (call date_today c notebook args)).
Proof.
  intros Hok. destruct c; cbn [call];
    unfold add_contact, change_number, del_number, print_phone, del_contact,
      days_to_births;
    rewrite ?fst_input_error; try exact Hok.
  - (* add_contact *)
    unfold add_contact_body.
    destruct (index args 0) as [a0 | e0]; cbn [bind fst]; [| exact Hok].
    destruct (Name.new a0) as [name | e] eqn:Hname; cbn [bind fst];
      [| exact Hok].
    destruct (index args 1) as [a1 | e1]; cbn [bind fst]; [| exact Hok].
    destruct (Phone.new a1) as [phone | e] eqn:Hphone; cbn [bind fst];
      [| exact Hok].
    assert (Hkey : Name.value name = a0) by now apply name_new_value.
    assert (Hrec : forall b, record_ok a0 (ContactRecord.Build name [phone] b)).
    { intros b. split; [assumption | split].
      - constructor; [| constructor]. now apply phone_new_again in Hphone.
      - unfold phone_values. simpl. repeat constructor. simpl. tauto. }
    unfold AddressBook.add_record, ContactRecord.new.
    cbv zeta. cbn [ContactRecord.name]. rewrite Hkey.
    destruct (AddressBook.get notebook a0) as [old |] eqn:Hold.
    + destruct (bind (index args 2) _) as [b | e2]; cbn [fst].
      * exact Hok.
      * destruct e2; exact Hok.
    + assert (Hadded : book_ok (AddressBook.set_item notebook a0
                                  (ContactRecord.Build name [phone] None)))
        by now apply book_ok_set_item.
      destruct (bind (index args 2) _) as [b | e2]; cbn [fst].
      * cbn [ContactRecord.add_birthday ContactRecord.name
             ContactRecord.phones].
        now apply book_ok_set_item.
      * destruct e2; exact Hadded.
  - (* change_number *)
    unfold change_number_body.
    destruct (index args 0) as [a0 | e0]; cbn [fst]; [| exact Hok].
    destruct (AddressBook.get notebook a0) as [rec |] eqn:Hget;
      [| exact Hok].
    destruct (index args 1) as [a1 | e1]; cbn [bind fst]; [| exact Hok].
    destruct (Phone.new a1) as [phone | e]; cbn [bind fst]; [| exact Hok].
    destruct (index args 2) as [a2 | e2]; cbn [bind fst]; [| exact Hok].
    destruct (Phone.new a2) as [new_phone | e] eqn:Hnew; cbn [bind fst];
      [| exact Hok].
    apply book_ok_set_item; [assumption |].
    apply change_phone_keeps; [now apply (book_ok_get notebook) |].
    now apply phone_new_again in Hnew.
  - (* del_number *)
    unfold del_number_body.
    destruct (index args 0) as [a0 | e0]; cbn [fst]; [| exact Hok].
    destruct (AddressBook.get notebook a0) as [rec |] eqn:Hget;
      [| exact Hok].
    destruct (index args 1) as [a1 | e1]; cbn [bind fst]; [| exact Hok].
    destruct (Phone.new a1) as [phone | e]; cbn [bind fst]; [| exact Hok].
    apply book_ok_set_item; [assumption |].
    apply del_phone_keeps. now apply (book_ok_get notebook).
  - (* del_contact *)
    unfold del_contact_body.
    destruct (index args 0) as [a0 | e0]; cbn [fst]; [| exact Hok].
    unfold AddressBook.del_record.
    destruct (AddressBook.get notebook a0) as [rec |]; cbn [fst];
      [| exact Hok].
    destruct Hok as [Hwf Hall]. split.
    + now apply wf_pop.
    + now apply Forall_pop.
Qed.

Lemma book_ok_main (date_today : Date.t) (inputs : list string)
    (notebook : AddressBook.t) :
  book_ok notebook ->
  book_ok (fst (fst (main date_today inputs notebook))).
Proof.
  revert notebook. induction inputs as [| user_input inputs IH];
    intros notebook Hok; cbn [main]; [exact Hok |].
  destruct (command_parser user_input) as [[c args] |]; [| exact Hok].
  pose proof (book_ok_call date_today c notebook args Hok) as Hcall.
  destruct (call date_today c notebook args) as [nb1 [v | e]];
    cbn [fst] in Hcall; [| exact Hcall].
  destruct (is_to_exit c); [exact Hcall |].
  specialize (IH nb1 Hcall).
  now destruct (main date_today inputs nb1) as [[nb2 out] how].
Qed.

(** The commands keep the book as [add_contact] builds it.  When every
    contact is under the key that is its name, every name passes [Name],
    every phone passes [Phone], no contact has a phone value twice and
    no name is a key twice, the same holds after any one command and at
    the end of [main], whatever lines are typed and however it ends. *)
Theorem book_stays_well_formed (date_today : Date.t) (inputs : list string)
    (notebook : AddressBook.t) :
  book_ok notebook ->
  book_ok (fst (fst (main date_today inputs notebook)))
  /\ forall c args, book_ok (fst (call date_today c notebook args)).
Proof.
  intros Hok. split.
  - now apply book_ok_main.
  - intros c args. now apply book_ok_call.
Qed.

Lemma book_stays_well_formed_witness :
  book_ok three_contacts
  /\ book_ok (fst (fst (main (Date.Build 2026 11 4)
                          ["add Dave 1112223334 1.1.2000";
                           "change alice 1234567890 1112223334";
                           "del Bob 0123456789"; "remove Carol"; "oops"]
                          three_contacts))).
Proof.
  assert (Hok : book_ok three_contacts).
  { split.
    - repeat constructor; simpl; intuition discriminate.
    - repeat constructor; simpl; intuition discriminate. }
  split; [exact Hok |].
  apply (book_stays_well_formed (Date.Build 2026 11 4)
           ["add Dave 1112223334 1.1.2000";
            "change alice 1234567890 1112223334";
            "del Bob 0123456789"; "remove Carol"; "oops"]
           three_contacts Hok).
Defined.

(** ** Command lines *)

Lemma append_assoc (a b c : string) :
  ((a ++ b) ++ c)%string = (a ++ (b ++ c))%string.
Proof. induction a as [| x a IH]; simpl; [reflexivity | now rewrite IH]. Qed.

Lemma rev_string_acc (acc s : string) :
  rev_string acc s = (rev_string EmptyString s ++ acc)%string.
Proof.
  revert acc. induction s as [| c s IH]; intros acc; simpl; [reflexivity |].
  rewrite (IH (String c acc)), (IH (String c EmptyString)).
  now rewrite append_assoc.
Qed.

Lemma rev_string_app (acc a b : string) :
  rev_string acc (a ++ b)%string = rev_string (rev_string acc a) b.
Proof.
  revert acc. induction a as [| c a IH]; intros acc; simpl; [reflexivity |].
  apply IH.
Qed.

Lemma rev_string_twice (acc s : string) :
  rev_string acc (rev_string EmptyString s) = (s ++ acc)%string.
Proof.
  revert acc. induction s as [| c s IH]; intros acc; simpl; [reflexivity |].
  now rewrite (rev_string_acc (String c EmptyString) s), rev_string_app, IH.
Qed.

Lemma lstrip_spaces (s : string) :
  exists sp, s = (sp ++ lstrip s)%string /\ all_chars is_space sp = true.
Proof.
  induction s as [| c s (sp & Hs & Hsp)]; simpl.
  - now exists EmptyString.
  - destruct (is_space c) eqn:Hc.
    + exists (String c sp). simpl. rewrite Hc, Hsp. split; [| reflexivity].
      now rewrite <- Hs.
    + now exists EmptyString.
Qed.

Lemma split_lstrip (s : string) : split (lstrip s) = split s.
Proof.
  unfold split. induction s as [| c s IH]; simpl; [reflexivity |].
  destruct (is_space c) eqn:Hc; [exact IH |]. simpl. now rewrite Hc.
Qed.

Lemma split_from_spaces (cur sp : string) :
  all_chars is_space sp = true -> split_from cur sp = flush cur [].
Proof.
  revert cur. induction sp as [| c sp IH]; intros cur; simpl; [reflexivity |].
  intros [Hc Hsp]%andb_prop. rewrite Hc, (IH EmptyString Hsp). reflexivity.
Qed.

Lemma split_from_trailing (cur a sp : string) :
  all_chars is_space sp = true ->
  split_from cur (a ++ sp)%string = split_from cur a.
Proof.
  intros Hsp. revert cur. induction a as [| c a IH]; intros cur; simpl.
  - now apply split_from_spaces.
  - now rewrite !IH.
Qed.

(** [split] does not see the white space that [strip] takes off. *)
Lemma split_strip (s : string) : split (strip s) = split s.
Proof.
  rewrite <- (split_lstrip s). unfold strip.
  set (t := lstrip s).
  destruct (lstrip_spaces (rev_string EmptyString t)) as (sp & Hrev & Hsp).
  set (u := lstrip (rev_string EmptyString t)) in *.
  assert (Ht : t = (rev_string EmptyString u
                    ++ rev_string EmptyString sp)%string).
  { rewrite <- (append_empty_r t), <- (rev_string_twice EmptyString t), Hrev.
    rewrite rev_string_app. apply rev_string_acc. }
  transitivity (split (rev_string EmptyString u
                       ++ rev_string EmptyString sp)%string).
  - symmetry. apply split_from_trailing. now rewrite all_chars_rev_string.
  - now rewrite <- Ht.
Qed.

Lemma split_from_run (cur w s : string) :
  all_chars no_space w = true ->
  split_from cur (w ++ s)%string = split_from (rev_string cur w) s.
Proof.
  revert cur. induction w as [| c w IH]; intros cur; simpl; [reflexivity |].
  intros [Hc Hw]%andb_prop. unfold no_space in Hc.
  apply negb_true_iff in Hc. rewrite Hc. now apply IH.
Qed.

Lemma flush_rev_string (w : string) (out : list string) :
  w <> EmptyString -> flush (rev_string EmptyString w) out = w :: out.
Proof.
  intros Hne.
  destruct (rev_string EmptyString w) as [| y r] eqn:Hr.
  - destruct w as [| x w]; [contradiction |]. cbn [rev_string] in Hr.
    now apply rev_string_not_empty in Hr.
  - cbn [flush]. rewrite <- Hr.
    now rewrite rev_string_twice, append_empty_r.
Qed.

Lemma split_word_then (w s : string) (c : ascii) :
  word w -> is_space c = true ->
  split (w ++ String c s)%string = w :: split s.
Proof.
  intros [Hne Hw] Hc. unfold split. rewrite split_from_run by assumption.
  simpl. rewrite Hc. now apply flush_rev_string.
Qed.

Lemma split_word (w : string) : word w -> split w = [w].
Proof.
  intros [Hne Hw]. unfold split.
  rewrite <- (append_empty_r w) at 1. rewrite split_from_run by assumption.
  simpl. now apply flush_rev_string.
Qed.

(** [split] gives back the words that one blank each joins. *)
Lemma split_join (ws : list string) :
  Forall word ws -> split (join " " ws) = ws.
Proof.
  induction 1 as [| w ws Hw Hws IH]; [reflexivity |].
  destruct ws as [| w' ws].
  - now apply split_word.
  - change (join " " (w :: w' :: ws))
      with (w ++ String " " (join " " (w' :: ws)))%string.
    rewrite split_word_then by (assumption || reflexivity).
    now rewrite IH.
Qed.

Lemma split_after_blank (s : string) : split (String " " s) = split s.
Proof. reflexivity. Qed.

Ltac each_alias H :=
  repeat (destruct H as [H | H]; [injection H as <- <- |]);
  try contradiction.

Lemma command_parser_line (c : command) (value : list string) (i : string)
    (ws : list string) :
  In (c, value) all_commands -> In i value ->
  i <> "delete" -> i <> "show" -> Forall word ws ->
  command_parser (i ++ " " ++ join " " ws) = Some (c, ws).
Proof.
  intros Hc Hi Hdelete Hshow Hws.
  assert (Hline : command_parser (i ++ " " ++ join " " ws)
                  = Some (c, split (strip (String " " (join " " ws))))).
  { unfold all_commands in Hc. each_alias Hc;
      repeat (destruct Hi as [Hi | Hi];
              [subst i; try reflexivity; try contradiction |]);
      try contradiction. }
  rewrite Hline, split_strip, split_after_blank, split_join by assumption.
  reflexivity.
Qed.

Lemma delete_line (ws : list string) :
  Forall word ws ->
  command_parser ("delete " ++ join " " ws) = Some (CmdDelNumber, "ete" :: ws).
Proof.
  intros Hws.
  change (command_parser ("delete " ++ join " " ws))
    with (Some (CmdDelNumber,
                split (strip ("ete" ++ String " " (join " " ws))%string))).
  rewrite split_strip, split_word_then, split_join;
    [reflexivity | assumption | | reflexivity].
  split; [discriminate | reflexivity].
Qed.

(** ** What the user is told *)

Lemma unknown_contact_call (date_today : Date.t) (notebook : AddressBook.t)
    (name : string) (rest : list string) (c : command) :
  AddressBook.get notebook name = None ->
  In c [CmdChangeNumber; CmdDelNumber; CmdDelContact; CmdDaysToBirths] ->
  call date_today c notebook (name :: rest)
  = (notebook, Ok (Str (not_in_notebook name))).
Proof.
  intros Hget Hc. simpl in Hc.
  destruct Hc as [<- | [<- | [<- | [<- | []]]]]; cbn [call];
    unfold change_number, change_number_body, del_number, del_number_body,
      del_contact, del_contact_body, days_to_births, days_to_births_body,
      AddressBook.del_record, input_error;
    cbn [index nth_error bind]; now rewrite Hget.
Qed.

Lemma del_phone_absent (r : ContactRecord.t) (p : Phone.t) :
  ~ In (Phone.value p) (phone_values r) ->
  ContactRecord.del_phone r p = (r, None).
Proof.
  intros Hnot. apply remove_first_none in Hnot.
  unfold ContactRecord.del_phone. now rewrite Hnot.
Qed.

Lemma del_number_absent (notebook : AddressBook.t) (name a : string)
    (rest : list string) (rec : ContactRecord.t) (p : Phone.t) :
  AddressBook.get notebook name = Some rec ->
  Phone.new a = Ok p ->
  ~ In a (phone_values rec) ->
  del_number notebook (name :: a :: rest)
  = (notebook,
     Ok (Str ("Contact " ++ a ++ " has deleted successfully from contact "
              ++ Name.value (ContactRecord.name rec) ++ "."))).
Proof.
  intros Hget Hp Hnot.
  apply phone_new_value in Hp as Hval.
  unfold del_number, del_number_body, input_error.
  cbn [index nth_error bind]. rewrite Hget, Hp. cbn [bind].
  rewrite del_phone_absent by now subst p.
  cbn [fst]. rewrite set_item_get_same by assumption. now subst p.
Qed.

Lemma change_number_absent (notebook : AddressBook.t) (name a b : string)
    (rest : list string) (rec : ContactRecord.t) (p q : Phone.t) :
  AddressBook.get notebook name = Some rec ->
  Phone.new a = Ok p -> Phone.new b = Ok q ->
  ~ In a (phone_values rec) ->
  change_number notebook (name :: a :: b :: rest)
  = (notebook,
     Ok (Str ("Contact " ++ Name.value (ContactRecord.name rec)
              ++ " has changed successfully."))).
Proof.
  intros Hget Hp Hq Hnot.
  apply phone_new_value in Hp as Hval.
  unfold change_number, change_number_body, input_error.
  cbn [index nth_error bind]. rewrite Hget, Hp. cbn [bind]. rewrite Hq.
  cbn [bind]. unfold ContactRecord.change_phone.
  rewrite del_phone_absent by now subst p.
  cbn [fst]. now rewrite set_item_get_same by assumption.
Qed.

Lemma add_contact_refused_name (notebook : AddressBook.t) (name : string)
    (rest : list string) (e : exn) :
  Name.new name = Raise e ->
  add_contact notebook (name :: rest) = (notebook, Ok (Str phone_message)).
Proof.
  intros Hname. unfold Name.new in Hname.
  destruct (re_match name_pattern name) eqn:Hmatch; [discriminate |].
  unfold add_contact, add_contact_body, input_error, Name.new.
  cbn [index nth_error bind]. now rewrite Hmatch.
Qed.

(** ** Letter case *)

Lemma is_space_lower_char (c : ascii) : is_space (lower_char c) = is_space c.
Proof. destruct c as [[] [] [] [] [] [] [] []]; reflexivity. Qed.

Lemma lower_char_twice (c : ascii) : lower_char (lower_char c) = lower_char c.
Proof. destruct c as [[] [] [] [] [] [] [] []]; reflexivity. Qed.

Lemma lower_twice (s : string) : lower (lower s) = lower s.
Proof.
  induction s as [| c s IH]; simpl; [reflexivity |].
  now rewrite lower_char_twice, IH.
Qed.

Lemma lower_drop (n : nat) (s : string) : drop n (lower s) = lower (drop n s).
Proof.
  revert s. induction n as [| n IH]; intros [| c s]; simpl; auto.
Qed.

Lemma lower_rev_string (acc s : string) :
  rev_string (lower acc) (lower s) = lower (rev_string acc s).
Proof.
  revert acc. induction s as [| c s IH]; intros acc; simpl; [reflexivity |].
  now rewrite <- IH.
Qed.

Lemma lower_lstrip (s : string) : lstrip (lower s) = lower (lstrip s).
Proof.
  induction s as [| c s IH]; simpl; [reflexivity |].
  rewrite is_space_lower_char. now destruct (is_space c).
Qed.

Lemma lower_strip (s : string) : strip (lower s) = lower (strip s).
Proof.
  unfold strip.
  rewrite lower_lstrip.
  change EmptyString with (lower EmptyString) at 1 2.
  now rewrite lower_rev_string, lower_lstrip, lower_rev_string.
Qed.

Lemma lower_flush (cur : string) (out : list string) :
  flush (lower cur) (map lower out) = map lower (flush cur out).
Proof.
  destruct cur as [| c cur]; [reflexivity |].
  change (lower (String c cur)) with (String (lower_char c) (lower cur)).
  cbn [flush map]. f_equal.
  change EmptyString with (lower EmptyString) at 1.
  change (String (lower_char c) (lower cur)) with (lower (String c cur)).
  apply lower_rev_string.
Qed.

Lemma lower_split_from (cur s : string) :
  split_from (lower cur) (lower s) = map lower (split_from cur s).
Proof.
  revert cur. induction s as [| c s IH]; intros cur; simpl.
  - apply (lower_flush cur []).
  - rewrite is_space_lower_char. destruct (is_space c).
    + change EmptyString with (lower EmptyString) at 1.
      rewrite IH. apply lower_flush.
    + apply (IH (String c cur)).
Qed.

Lemma lower_split (s : string) : split (lower s) = map lower (split s).
Proof. apply (lower_split_from EmptyString). Qed.

Lemma parse_aliases_lower (key : command) (value : list string)
    (user_input : string) :
  parse_aliases key value (lower user_input)
  = option_map lower_arguments (parse_aliases key value user_input).
Proof.
  induction value as [| i value IH]; simpl; [reflexivity |].
  rewrite lower_twice.
  destruct (startswith (lower user_input) (lower i)); [| exact IH].
  simpl. unfold lower_arguments. cbn [fst snd].
  now rewrite lower_drop, lower_strip, lower_split.
Qed.

Lemma parse_commands_lower (table : list (command * list string))
    (user_input : string) :
  parse_commands table (lower user_input)
  = option_map lower_arguments (parse_commands table user_input).
Proof.
  induction table as [| [key value] table IH]; simpl; [reflexivity |].
  rewrite parse_aliases_lower.
  destruct (parse_aliases key value user_input) as [found |]; [reflexivity |].
  exact IH.
Qed.

(** ** Lines, commands and answers *)

(** A line made of an alias, a blank and words with one blank between
    them is parsed into the command of the alias and these words, for
    every alias but two: [delete], which [del] takes first, and [show],
    whose line can start with [show all]. *)
Theorem command_line_round_trip (c : command) (value : list string)
    (i : string) (ws : list string) :
  In (c, value) all_commands -> In i value ->
  i <> "delete" -> i <> "show" -> Forall word ws ->
  command_parser (i ++ " " ++ join " " ws) = Some (c, ws).
Proof. apply command_parser_line. Qed.

Lemma command_line_round_trip_witness :
  command_parser "new Alice 1234567890"
  = Some (CmdAddContact, ["Alice"; "1234567890"]).
Proof.
  apply (command_line_round_trip CmdAddContact ["add"; "new"; "+"] "new"
           ["Alice"; "1234567890"]).
  - simpl. tauto.
  - simpl. tauto.
  - discriminate.
  - discriminate.
  - repeat constructor; discriminate.
Defined.

(** The alias [delete] is never reached: a line that starts with it
    starts with [del], so it is [del_number] that runs, and its first
    argument is the rest of the alias, [ete].  Unless a contact has that
    name, the answer is that [ete] is not in the book, and nothing is
    deleted. *)
Theorem delete_is_read_as_del (date_today : Date.t) (notebook : AddressBook.t)
    (ws : list string) :
  Forall word ws ->
  AddressBook.get notebook "ete" = None ->
  command_parser ("delete " ++ join " " ws) = Some (CmdDelNumber, "ete" :: ws)
  /\ main date_today [("delete " ++ join " " ws)%string; "exit"] notebook
     = (notebook, [not_in_notebook "ete"; "Good bye"], Exited).
Proof.
  intros Hws Hget. pose proof (delete_line ws Hws) as Hline.
  split; [exact Hline |].
  cbn [main]. rewrite Hline.
  rewrite (unknown_contact_call date_today notebook "ete" ws CmdDelNumber)
    by (assumption || (simpl; tauto)).
  reflexivity.
Qed.

Lemma delete_is_read_as_del_witness :
  command_parser "delete Alice 1234567890"
  = Some (CmdDelNumber, ["ete"; "Alice"; "1234567890"])
  /\ main (Date.Build 2026 11 4) ["delete Alice 1234567890"; "exit"]
       three_contacts
     = (three_contacts, [not_in_notebook "ete"; "Good bye"], Exited).
Proof.
  apply (delete_is_read_as_del (Date.Build 2026 11 4) three_contacts
           ["Alice"; "1234567890"]).
  - repeat constructor; discriminate.
  - reflexivity.
Defined.

(** Letter case does not decide the command: on the line in lower case
    [command_parser] finds the same command, with the same arguments in
    lower case; so two lines that differ in letter case only run the
    same command on arguments that differ in letter case only. *)
Theorem command_parser_ignores_case (user_input : string) :
  command_parser (lower user_input)
  = option_map lower_arguments (command_parser user_input)
  /\ forall other,
       lower other = lower user_input ->
       option_map lower_arguments (command_parser other)
       = option_map lower_arguments (command_parser user_input).
Proof.
  unfold command_parser. split.
  - apply parse_commands_lower.
  - intros other Hsame. rewrite <- !parse_commands_lower. now rewrite Hsame.
Qed.

(** A command about a name that is not in the book changes nothing.
    [change], [del], [remove] and [days] answer that the name is not in
    the book, before they look at any other argument; [phone] answers
    with the message of [KeyError]. *)
Theorem unknown_contact_changes_nothing (date_today : Date.t)
    (notebook : AddressBook.t) (name : string) (rest : list string) :
  AddressBook.get notebook name = None ->
  Forall (fun c => call date_today c notebook (name :: rest)
                   = (notebook, Ok (Str (not_in_notebook name))))
         [CmdChangeNumber; CmdDelNumber; CmdDelContact; CmdDaysToBirths]
  /\ print_phone notebook (name :: rest)
     = (notebook, Ok (Str missing_message)).
Proof.
  intros Hget. split.
  - apply Forall_forall. intros c Hc. now apply unknown_contact_call.
  - unfold print_phone, print_phone_body, input_error, AddressBook.getitem.
    cbn [index nth_error bind]. now rewrite Hget.
Qed.

Lemma unknown_contact_changes_nothing_witness :
  Forall (fun c => call (Date.Build 2026 11 4) c three_contacts ["Dave"; "x"]
                   = (three_contacts, Ok (Str (not_in_notebook "Dave"))))
         [CmdChangeNumber; CmdDelNumber; CmdDelContact; CmdDaysToBirths]
  /\ print_phone three_contacts ["Dave"; "x"]
     = (three_contacts, Ok (Str missing_message)).
Proof.
  apply (unknown_contact_changes_nothing (Date.Build 2026 11 4)
           three_contacts "Dave" ["x"]).
  reflexivity.
Defined.

(** [del] and [change] with a phone that the contact does not have
    still answer that the phone was deleted, or the contact changed,
    and leave the book as it was. *)
Theorem absent_phone_is_reported_as_done (notebook : AddressBook.t)
    (name a b : string) (rest : list string) (rec : ContactRecord.t)
    (p q : Phone.t) :
  AddressBook.get notebook name = Some rec ->
  Phone.new a = Ok p -> Phone.new b = Ok q ->
  ~ In a (phone_values rec) ->
  del_number notebook (name :: a :: rest)
  = (notebook,
     Ok (Str ("Contact " ++ a ++ " has deleted successfully from contact "
              ++ Name.value (ContactRecord.name rec) ++ ".")))
  /\ change_number notebook (name :: a :: b :: rest)
     = (notebook,
        Ok (Str ("Contact " ++ Name.value (ContactRecord.name rec)
                 ++ " has changed successfully."))).
Proof.
  intros Hget Hp Hq Hnot. split.
  - now apply (del_number_absent notebook name a rest rec p).
  - now apply (change_number_absent notebook name a b rest rec p q).
Qed.

Lemma absent_phone_is_reported_as_done_witness :
  del_number three_contacts ["Alice"; "0000000000"]
  = (three_contacts,
     Ok (Str "Contact 0000000000 has deleted successfully from contact Alice."))
  /\ change_number three_contacts ["Alice"; "0000000000"; "1111111111"]
     = (three_contacts, Ok (Str "Contact Alice has changed successfully.")).
Proof.
  apply (absent_phone_is_reported_as_done three_contacts "Alice" "0000000000"
           "1111111111" [] alice (Phone.Build "0000000000")
           (Phone.Build "1111111111")).
  - reflexivity.
  - reflexivity.
  - reflexivity.
  - simpl. intros [H | []]. discriminate H.
Defined.

(** A name that [Name] refuses is answered with the message about
    phones, whatever the other arguments are, and nothing is added. *)
Theorem refused_name_gets_phone_message (notebook : AddressBook.t)
    (name : string) (rest : list string) (e : exn) :
  Name.new name = Raise e ->
  add_contact notebook (name :: rest) = (notebook, Ok (Str phone_message)).
Proof. apply add_contact_refused_name. Qed.

Lemma refused_name_gets_phone_message_witness :
  add_contact three_contacts ["R2D2"; "1234567890"]
  = (three_contacts, Ok (Str phone_message)).
Proof.
  apply (refused_name_gets_phone_message three_contacts "R2D2" ["1234567890"]
           (ValueError "Name must contain only letters and be 1-20 symbols long")).
  reflexivity.
Defined.
